(** * Batch loops of the migration scripts

    A shallow embedding of [src/github-api/findallbrokenprs.py] (the
    scanner) and [src/github-api/transfer_pr_bb2gh.py] (the transfer
    utility).  Both scripts are one sequential [main]; the embedding
    threads an explicit world (files, log stream, remote calls) through a
    small state-and-signal monad in which Python's [raise], [continue] and
    [exit] are signals. *)

From Stdlib Require Import ZArith Ascii String DecimalString.
From stdpp Require Import gmap strings list fin_maps.

Local Open Scope Z_scope.

(** ** The fragment of the Python runtime both scripts rely on *)
Module Py.

(** Exceptions deriving from [Exception] that the scripts can meet. *)
Inductive exn :=
| TypeError
| ValueError
| UnknownObjectException
| HTTPError (status_code : Z)
| AttributeError
| GitCommandError
| OtherException (msg : string).

(** What interrupts straight-line execution.  [SystemExit] is raised by
    [exit(n)]; it derives from [BaseException], so [except Exception] does
    not catch it.  [Continue] is the loop statement. *)
Inductive signal :=
| Raise (e : exn)
| Continue
| SystemExit (code : Z).

Definition M (S A : Type) : Type := S -> (A + signal) * S.

#[global] Instance M_ret {S} : MRet (M S) := fun A a s => (inl a, s).
#[global] Instance M_bind {S} : MBind (M S) := fun A B f c s =>
  match c s with
  | (inl a, s') => f a s'
  | (inr sg, s') => (inr sg, s')
  end.

Definition throw {S A} (sg : signal) : M S A := fun s => (inr sg, s).
Definition raise {S A} (e : exn) : M S A := throw (Raise e).
Definition continue {S A} : M S A := throw Continue.
Definition exit {S A} (code : Z) : M S A := throw (SystemExit code).
Definition modify {S} (f : S -> S) : M S unit := fun s => (inl tt, f s).
Definition gets {S A} (f : S -> A) : M S A := fun s => (inl (f s), s).

(** [try: body / except <class> as e: handler e], where [catches e] tells
    whether [e] is an instance of the class. *)
Definition try_except {S A} (catches : exn -> bool)
    (body : M S A) (handler : exn -> M S A) : M S A := fun s =>
  match body s with
  | (inr (Raise e), s') => if catches e then handler e s' else (inr (Raise e), s')
  | r => r
  end.

Definition any_Exception (e : exn) : bool := true.

(** [for x in xs: body x].  The loop goes on after a normal end of the body
    and after [continue]; an exception or an exit leaves it. *)
Fixpoint for_each {S A} (body : A -> M S unit) (xs : list A) : M S unit :=
  match xs with
  | [] => mret tt
  | x :: xs' => fun s =>
      match body x s with
      | (inl _, s') | (inr Continue, s') => for_each body xs' s'
      | (inr sg, s') => (inr sg, s')
      end
  end.

(** [str(n)] for an [int], as the f-strings and [%s] format it. *)
Definition str_of_int (n : Z) : string := NilZero.string_of_int (Z.to_int n).

(** [range(a, b)] *)
Definition range (a b : Z) : list Z :=
  map (fun i => a + Z.of_nat i) (seq 0 (Z.to_nat (b - a))).

Definition nl : string := String "010"%char EmptyString.

(** The [logging] levels and their numeric values. *)
Inductive level := DEBUG | INFO | WARNING | ERROR | CRITICAL.

Definition level_no (l : level) : Z :=
  match l with
  | DEBUG => 10 | INFO => 20 | WARNING => 30 | ERROR => 40 | CRITICAL => 50
  end.

Definition record : Type := level * string.

(** A record is emitted when its level reaches the effective level of the
    logger. *)
Definition emit (threshold lvl : level) (msg : string)
    (stream : list record) : list record :=
  if level_no threshold <=? level_no lvl then stream ++ [(lvl, msg)] else stream.

(** [posixpath.join(a, b)] *)
Definition starts_with_sep (s : string) : bool :=
  match s with
  | String c _ => bool_decide (c = "/"%char)
  | EmptyString => false
  end.

Fixpoint ends_with_sep (s : string) : bool :=
  match s with
  | EmptyString => false
  | String c EmptyString => bool_decide (c = "/"%char)
  | String _ s' => ends_with_sep s'
  end.

Definition join_prefix (a : string) : string :=
  if bool_decide (a = EmptyString) || ends_with_sep a then a else a +:+ "/".

Definition os_path_join (a b : string) : string :=
  if starts_with_sep b then b else join_prefix a +:+ b.

End Py.

Import Py.

(** ** The scanner: [findallbrokenprs.py] *)
Module Scanner.

Definition BROKEN_PRS_FILE : string := "broken_prs.txt".
Definition PR_NOT_FOUND_FILE : string := "pr_not_found.txt".
Definition PR_EXCEPTIONS_FILE : string := "pr_exceptions.txt".
Definition LAST_ISSUE_FILE : string := "last_issue.txt".

Record SimpleIssue := { number : Z }.

(** What the script passes as [data]: always the PR number, an [int]. *)
Inductive pyval := PyInt (n : Z) | PyStr (s : string).

Definition fmt (d : pyval) : string :=
  match d with PyInt n => str_of_int n | PyStr s => s end.

(** The [mode] argument of [open]. *)
Inductive open_mode := mode_a | mode_w.

(** Calls that leave the process. *)
Inductive call :=
| GetPull (repo : string) (pr_number : Z)
| RequestsGet (url : string).

(** The world the script acts on: the files (path to content), the
    directories [os.makedirs] made sure exist, the log stream and the remote
    calls issued. *)
Record world := World {
  files : gmap string string;
  dirs : gset string;
  log : list record;
  calls : list call
}.

Definition empty_world : world := World ∅ ∅ [] [].

(** What reading [file] gives; a missing file reads as the empty text. *)
Definition content (w : world) (file : string) : string :=
  default EmptyString (files w !! file).

(** [merge w d] is the world [w] followed by the effects recorded in [d]:
    the texts of [d] are appended to the files of [w], its directories are
    added, its log lines and calls come after those of [w]. *)
Definition merge (w d : world) : world :=
  World (union_with (fun x y => Some (x +:+ y)) (files w) (files d))
        (dirs w ∪ dirs d) (log w ++ log d) (calls w ++ calls d).

(** The hosting service, as the script observes it. *)
Record pull := { commits : Z; diff_url : string }.

Record remote := {
  get_pull : Z -> pull + exn;
  requests_get : string -> Z + exn
}.

Record Args := {
  start : option Z;
  end_ : option Z;
  pr : option (list Z);
  state_dir : string;
  dry_run : bool;
  log_level : string;
  repo : string
}.

(** [logging.basicConfig(level=logging.INFO)] is the only configuration of
    the loggers: [--log-level] is parsed and never used. *)
Definition log_add (lvl : level) (msg : string) (w : world) : world :=
  World (files w) (dirs w) (emit INFO lvl msg (log w)) (calls w).

Definition call_add (c : call) (w : world) : world :=
  World (files w) (dirs w) (log w) (calls w ++ [c]).

(** [open(file, mode)] where the file can be opened: both modes create a
    missing file, ['w'] empties an existing one.  The directory of [file] is
    taken to exist and to be writable: [main] opens nothing but the four
    files of the state directory, after [os.makedirs] at line 91.  The
    [OSError]s of a file system that refuses ([FileNotFoundError] for a
    missing directory among them) are not part of the model. *)
Definition file_open (file : string) (mode : open_mode) (w : world) : world :=
  let fs := files w in
  let fs' := match mode, fs !! file with
             | mode_a, Some _ => fs
             | _, _ => <[file := EmptyString]> fs
             end in
  World fs' (dirs w) (log w) (calls w).

(** Writing the text [s] at the end of an open file. *)
Definition file_append (file s : string) (w : world) : world :=
  World (<[file := default EmptyString (files w !! file) +:+ s]> (files w))
        (dirs w) (log w) (calls w).

(** The directories [os.makedirs(path)] makes sure exist, outermost first:
    what stands before each separator of [path] (its parents, which
    [makedirs] makes by calling itself on the head of [posixpath.split])
    and [path] itself.  Nothing stands before a leading separator, and a
    separator that follows another one or ends the path names no further
    directory.  The names are kept as [path] spells them. *)
Fixpoint makedirs_from (head rest : string) : list string :=
  let named := negb (bool_decide (head = EmptyString) || ends_with_sep head) in
  match rest with
  | EmptyString => if named then [head] else []
  | String c rest' =>
      (if bool_decide (c = "/"%char) && named then [head] else [])
      ++ makedirs_from (head +:+ String c EmptyString) rest'
  end.

Definition makedirs_names (path : string) : list string :=
  makedirs_from EmptyString path.

(** [os.makedirs(path, exist_ok=True)] where the directories can be made:
    directories that exist already are kept ([exist_ok]), the missing ones
    are made, parents included.  Its [OSError]s (an empty [path], a name
    taken by a file, a file system that refuses) are not part of the
    model. *)
Definition dir_add (path : string) (w : world) : world :=
  World (files w) (dirs w ∪ list_to_set (makedirs_names path)) (log w) (calls w).

Definition logging_emit (lvl : level) (msg : string) : M world unit :=
  modify (log_add lvl msg).

Definition logger_info := logging_emit INFO.
Definition logger_error := logging_emit ERROR.
(** [logger.exception] logs at level ERROR (the traceback text that follows
    the message is left out). *)
Definition logger_exception := logging_emit ERROR.

Definition issue_call (c : call) : M world unit := modify (call_add c).

Definition open_ (file : string) (mode : open_mode) : M world unit :=
  modify (file_open file mode).

(** [f.write(data)] on a text file: only a [str] is accepted. *)
Definition f_write (file : string) (data : pyval) : M world unit :=
  match data with
  | PyStr s => modify (file_append file s)
  | PyInt _ => raise TypeError
  end.

(** [write_to_file(file, data, mode='a', dry_run=False, newline=True)];
    the defaults are written out at the call sites. *)
Definition write_to_file (file : string) (data : pyval) (mode : open_mode)
    (dry_run newline : bool) : M world unit :=
  if dry_run then
    logger_info ("[Dry mode] Would write to " +:+ file +:+ ": " +:+ fmt data)
  else
    open_ file mode;;
    if newline then f_write file (PyStr (fmt data +:+ nl))
    else f_write file data.

Definition makedirs (path : string) : M world unit := modify (dir_add path).

Definition last_issue_file (a : Args) := os_path_join (state_dir a) LAST_ISSUE_FILE.
Definition broken_prs_file (a : Args) := os_path_join (state_dir a) BROKEN_PRS_FILE.
Definition pr_not_found_file (a : Args) := os_path_join (state_dir a) PR_NOT_FOUND_FILE.
Definition pr_ex_file (a : Args) := os_path_join (state_dir a) PR_EXCEPTIONS_FILE.

Definition is_UnknownObjectException (e : exn) : bool :=
  match e with UnknownObjectException => true | _ => false end.

(** [g.get_repo("miroapp-dev/server").get_pull(pr_number)]: the repository
    name is the literal, not [args.repo]. *)
Definition do_get_pull (R : remote) (pr_number : Z) : M world pull :=
  issue_call (GetPull "miroapp-dev/server" pr_number);;
  match get_pull R pr_number with
  | inl p => mret p
  | inr e => raise e
  end.

Definition do_requests_get (R : remote) (url : string) : M world Z :=
  issue_call (RequestsGet url);;
  match requests_get R url with
  | inl status_code => mret status_code
  | inr e => raise e
  end.

(** [response.status_code in [404, 422]] *)
Definition no_diff_status (status_code : Z) : bool :=
  (status_code =? 404) || (status_code =? 422).

(** The body of the [for issue in tqdm(issues, ...)] loop. *)
Definition loop_body (a : Args) (R : remote) (issue : SimpleIssue) : M world unit :=
  let pr_number := number issue in
  try_except any_Exception
    (logger_info ("Checking PR number: " +:+ str_of_int pr_number);;
     p ← try_except is_UnknownObjectException
           (do_get_pull R pr_number)
           (fun _ =>
              logger_info ("PR number: " +:+ str_of_int pr_number +:+ " not found");;
              write_to_file (pr_not_found_file a) (PyInt pr_number) mode_a (dry_run a) true;;
              continue);
     (if commits p =? 0 then
        logger_info ("PR number: " +:+ str_of_int pr_number +:+ " looks suspiciously empty");;
        status_code ← do_requests_get R (diff_url p);
        if no_diff_status status_code then
          logger_info ("PR number: " +:+ str_of_int pr_number +:+ " has no diff. thats our guy");;
          write_to_file (broken_prs_file a) (PyInt pr_number) mode_a (dry_run a) true
        else mret tt
      else mret tt);;
     write_to_file (last_issue_file a) (PyInt pr_number) mode_a (dry_run a) false)
    (fun _ =>
       logger_exception ("Exception occurred for PR number: " +:+ str_of_int pr_number);;
       write_to_file (pr_ex_file a) (PyInt pr_number) mode_a (dry_run a) true).

(** The checks of the selection arguments. *)
Definition check_args (a : Args) : M world unit :=
  (if bool_decide (pr a = None) && bool_decide (start a = None) && bool_decide (end_ a = None)
   then logger_error "Please provide either --pr, --start and --end arguments";; exit 1
   else mret tt);;
  (if negb (bool_decide (pr a = None))
      && (negb (bool_decide (start a = None)) || negb (bool_decide (end_ a = None)))
   then logger_error "Please provide either --pr or --start and --end arguments";; exit 1
   else mret tt).

(** [[SimpleIssue(pr) for pr in prs]] *)
Definition issues_of (prs : list Z) : list SimpleIssue := map Build_SimpleIssue prs.

(** The list of issues; [range] refuses [None]. *)
Definition make_issues (a : Args) : M world (list SimpleIssue) :=
  match pr a with
  | Some prs => mret (issues_of prs)
  | None =>
      match start a, end_ a with
      | Some s, Some e => mret (issues_of (range s e))
      | _, _ => raise TypeError
      end
  end.

Definition scan (a : Args) (R : remote) (issues : list SimpleIssue) : M world unit :=
  for_each (loop_body a R) issues.

(** [main()], given the value of [GITHUB_TOKEN] and the parsed arguments. *)
Definition main (token : option string) (a : Args) (R : remote) : M world unit :=
  logger_info "Loading environment variables";;
  match token with
  | None => logger_error "Please set GITHUB_TOKEN environment variable";; exit 1
  | Some _ =>
      check_args a;;
      logger_info "generating issues list";;
      issues ← make_issues a;
      (if dry_run a then logger_info "Dry run mode, not creating state files"
       else makedirs (state_dir a));;
      logger_info ("Scanning issues for broken PRs, total issues: "
                   +:+ str_of_int (Z.of_nat (length issues)));;
      scan a R issues;;
      logger_info "Done!"
  end.

(** *** Vocabulary of the statements about the scanner *)

(** [line] was written at the end of [file] between [w] and [w']. *)
Definition appended (w w' : world) (file line : string) : Prop :=
  files w' !! file = Some (content w file +:+ line).

(** The answers of the remote for PR [n] that make the script call it
    broken: found, no commits, and status 404 or 422 for its diff. *)
Definition answers_broken (R : remote) (n : Z) : Prop :=
  exists p c, get_pull R n = inl p /\ commits p = 0
    /\ requests_get R (diff_url p) = inl c /\ (c = 404 \/ c = 422).




(** A computation is uniform when its result does not depend on the world
    it starts from and its effect is to add to that world. *)
Definition uniform {A} (c : M world A) : Prop :=
  forall w, c w = ((c empty_world).1, merge w (c empty_world).2).

End Scanner.

(** ** The transfer utility: [transfer_pr_bb2gh.py] *)
Module Transfer.

Record Args := {
  bb_repo_url : string;
  bb_api_url : string;
  gh_repo_url : string;
  pr_ids : option (list Z);
  dry_run : bool;
  log_level : string;
  repo_dir : string;
  bb_project : string;
  bb_repo_slug : string
}.

(** The part of a pull-request response the script reads: [pr['id']],
    [pr['fromRef']['latestCommit']] and the text [str(pr)] it logs. *)
Record pull_request := {
  id : Z;
  latestCommit : option string;
  pr_str : string
}.

(** The loop variable [pr] first holds the identifier and is rebound to the
    response when the lookup returns. *)
Inductive pr_var := PrId (n : Z) | PrData (d : pull_request).

Inductive call :=
| CloneFrom (url dir : string)
| RepoInit (dir : string)
| Fetch (remote refspec : string)
| CreateRemote (name url : string)
| ProjectList
| GetPullRequest (project slug : string) (pr_id : Z)
| SetTag (project slug tag_name commit_hash : string)
| Push (remote refspec : string).

(** Everything outside the process, as the script observes it.  [None] in
    an [option exn] is a call that returns. *)
Record env := {
  GITHUB_TOKEN : option string;
  BB_TOKEN : option string;
  BB_USER : option string;
  stdin_isatty : bool;
  stdin_read : string;
  path_exists : string -> bool;
  clone_from : option exn;
  repo_remotes : list (string * string);
  fetch_on_open : option exn;
  fetch_after_tagging : option exn;
  project_list : list string + exn;
  get_pull_request : Z -> pull_request + exn;
  set_tag : string -> string -> option exn;
  push : string -> option exn
}.

(** The root logger's level, the log stream, the calls issued and the
    remotes of the opened repository. *)
Record world := World {
  root_level : level;
  log : list record;
  calls : list call;
  remotes : list (string * string)
}.

(** The state after [logging.basicConfig(level=logging.INFO)]. *)
Definition initial_world : world := World INFO [] [] [].

Definition log_add (lvl : level) (msg : string) (w : world) : world :=
  World (root_level w) (emit (root_level w) lvl msg (log w)) (calls w) (remotes w).

Definition call_add (c : call) (w : world) : world :=
  World (root_level w) (log w) (calls w ++ [c]) (remotes w).

Definition logging_emit (lvl : level) (msg : string) : M world unit :=
  modify (log_add lvl msg).

Definition logger_debug := logging_emit DEBUG.
Definition logger_info := logging_emit INFO.
Definition logger_error := logging_emit ERROR.
Definition logger_exception := logging_emit ERROR.

Definition issue_call (c : call) : M world unit := modify (call_add c).

Definition set_remotes (rs : list (string * string)) : M world unit :=
  modify (fun w => World (root_level w) (log w) (calls w) rs).

Definition level_of_name (s : string) : option level :=
  if bool_decide (s = "DEBUG") then Some DEBUG
  else if bool_decide (s = "INFO") then Some INFO
  else if bool_decide (s = "WARNING") then Some WARNING
  else if bool_decide (s = "ERROR") then Some ERROR
  else if bool_decide (s = "CRITICAL") then Some CRITICAL
  else None.

(** [logging.getLogger().setLevel(name)] *)
Definition setLevel (l : level) : M world unit :=
  modify (fun w => World l (log w) (calls w) (remotes w)).

(** A call that returns nothing of interest or raises. *)
Definition perform (c : call) (outcome : option exn) : M world unit :=
  issue_call c;;
  match outcome with
  | None => mret tt
  | Some e => raise e
  end.

(** [s.split('\n')] *)
Fixpoint split_nl (s : string) : list string :=
  match s with
  | EmptyString => [EmptyString]
  | String c s' =>
      if bool_decide (c = "010"%char) then EmptyString :: split_nl s'
      else match split_nl s' with
           | piece :: rest => String c piece :: rest
           | [] => [String c EmptyString]
           end
  end.

(** The text of an exception in the messages: [str(e.response)] for an
    [HTTPError], the message of an [OtherException]; the class name stands
    for the text of the builtin errors. *)
Definition str_of_exn (e : exn) : string :=
  match e with
  | TypeError => "TypeError"
  | ValueError => "ValueError"
  | UnknownObjectException => "UnknownObjectException"
  | HTTPError c => "<Response [" +:+ str_of_int c +:+ "]>"
  | AttributeError => "AttributeError"
  | GitCommandError => "GitCommandError"
  | OtherException msg => msg
  end.

Definition tag_name_of (pr_id : Z) : string := "dig-pr_" +:+ str_of_int pr_id.

Definition tag_refspec (tag_name : string) : string :=
  "refs/tags/" +:+ tag_name +:+ ":refs/tags/" +:+ tag_name.

(** [str(pr)] inside the f-strings. *)
Definition str_of_pr (v : pr_var) : string :=
  match v with PrId n => str_of_int n | PrData d => pr_str d end.

(** [pr['fromRef']['latestCommit']] and [pr['id']]: an [int] is not
    subscriptable. *)
Definition pr_latestCommit (v : pr_var) : M world (option string) :=
  match v with PrData d => mret (latestCommit d) | PrId _ => raise TypeError end.

Definition pr_id (v : pr_var) : M world Z :=
  match v with PrData d => mret (id d) | PrId _ => raise TypeError end.

Section WithBuiltins.

(** The builtin [int] on a [str]; [None] is a [ValueError]. *)
Variable int_ : string -> option Z.

Fixpoint int_all (pieces : list string) : M world (list Z) :=
  match pieces with
  | [] => mret []
  | piece :: rest =>
      match int_ piece with
      | Some n => ns ← int_all rest; mret (n :: ns)
      | None => raise ValueError
      end
  end.

(** [[int(pr_id) for pr_id in sys.stdin.read().split('\n') if pr_id]] *)
Definition read_pr_ids (E : env) : M world (list Z) :=
  int_all (filter (fun piece => piece ≠ EmptyString) (split_nl (stdin_read E))).

(** Opening the mirror: clone it when [repo_dir] is missing, otherwise
    open it and refresh its tags. *)
Definition open_repo (E : env) (a : Args) : M world unit :=
  if negb (path_exists E (repo_dir a)) then
    logger_info ("Cloning " +:+ bb_repo_url a +:+ " to " +:+ repo_dir a +:+ " (shallow clone)");;
    perform (CloneFrom (bb_repo_url a) (repo_dir a)) (clone_from E);;
    set_remotes [("origin", bb_repo_url a)]
  else
    issue_call (RepoInit (repo_dir a));;
    set_remotes (repo_remotes E);;
    logger_info ("Fetching tags for " +:+ bb_repo_url a);;
    rs ← gets remotes;
    (if bool_decide ("origin" ∈ rs.*1) then mret tt else raise AttributeError);;
    perform (Fetch "origin" "+refs/tags/*:refs/tags/*") (fetch_on_open E).

(** The [github] remote: added when missing, then its URL is compared. *)
Definition check_github_remote (a : Args) : M world unit :=
  rs ← gets remotes;
  (if bool_decide ("github" ∈ rs.*1) then mret tt
   else
     logger_info "Adding GitHub repository as remote";;
     issue_call (CreateRemote "github" (gh_repo_url a));;
     set_remotes (rs ++ [("github", gh_repo_url a)]));;
  rs ← gets remotes;
  match (list_to_map rs : gmap string string) !! "github" with
  | None => raise AttributeError
  | Some url =>
      if bool_decide (url = gh_repo_url a) then mret tt
      else
        logger_error ("GitHub remote URL mismatch: " +:+ url +:+ " != " +:+ gh_repo_url a);;
        exit 1
  end.

Definition check_bitbucket (E : env) : M world unit :=
  logger_info "Checking Bitbucket API";;
  try_except any_Exception
    (issue_call ProjectList;;
     match project_list E with
     | inl projects => for_each logger_debug projects
     | inr e => raise e
     end)
    (fun e =>
       logger_exception ("Bitbucket API error: " +:+ str_of_exn e);;
       exit 1).

(** The body of the first loop, [for pr in args.pr_ids]. *)
Definition tag_body (E : env) (a : Args) (pr0 : Z) : M world unit :=
  logger_info ("Processing PR: " +:+ str_of_int pr0);;
  pr ← try_except any_Exception
         (issue_call (GetPullRequest (bb_project a) (bb_repo_slug a) pr0);;
          match get_pull_request E pr0 with
          | inl d =>
              logger_debug ("PR: " +:+ pr_str d);;
              mret (PrData d)
          | inr e => raise e
          end)
         (fun e =>
            match e with
            | HTTPError status_code =>
                if status_code =? 404 then
                  logger_error ("PR " +:+ str_of_int pr0 +:+ " not found");;
                  continue
                else mret (PrId pr0)
            | _ =>
                logger_exception ("Bitbucket API error: " +:+ str_of_exn e);;
                continue
            end);
  latest ← pr_latestCommit pr;
  match latest with
  | None =>
      logger_error ("PR " +:+ str_of_pr pr +:+ " has no commits");;
      continue
  | Some commit_hash =>
      n ← pr_id pr;
      let tag_name := tag_name_of n in
      logger_info ("Tagging commit " +:+ commit_hash +:+ " with tag " +:+ tag_name);;
      if negb (dry_run a) then
        try_except any_Exception
          (perform (SetTag (bb_project a) (bb_repo_slug a) tag_name commit_hash)
                   (set_tag E tag_name commit_hash))
          (fun e =>
             match e with
             | HTTPError status_code =>
                 if status_code =? 409 then
                   logger_info ("Tag " +:+ tag_name +:+ " already exists")
                 else mret tt
             | _ =>
                 logger_exception ("Bitbucket API error: " +:+ str_of_exn e);;
                 continue
             end)
      else mret tt
  end.

(** The body of the second loop, which pushes the tags. *)
Definition push_body (E : env) (a : Args) (pr0 : Z) : M world unit :=
  let tag_name := tag_name_of pr0 in
  logger_info ("Pushing tag " +:+ tag_name +:+ " to GitHub");;
  if negb (dry_run a) then
    try_except any_Exception
      (perform (Push "github" (tag_refspec tag_name)) (push E (tag_refspec tag_name)))
      (fun e =>
         logger_exception ("Error pushing tag " +:+ tag_name +:+ " to GitHub: " +:+ str_of_exn e);;
         continue)
  else mret tt.

(** [len(args.pr_ids)] and [for pr in args.pr_ids]: [None] has no length. *)
Definition the_pr_ids (a : Args) : M world (list Z) :=
  match pr_ids a with
  | Some ids => mret ids
  | None => raise TypeError
  end.

(** What [main()] does between setting the log level and the first loop. *)
Definition prepare (E : env) (a : Args) : M world unit :=
  (if bool_decide (pr_ids a = None) && stdin_isatty E then
     logger_error "Please provide either --pr-ids or input data via stdin";;
     exit 1
   else mret tt);;
  (* the list read is bound to the local [pr_ids], checked to hold only
     [int]s (it does), and not used again *)
  (if negb (stdin_isatty E) then
     logger_info "Reading PR IDs from stdin";;
     _ ← read_pr_ids E;
     mret tt
   else mret tt);;
  logger_info ("Bitbucket repository URL: " +:+ bb_repo_url a);;
  open_repo E a;;
  check_github_remote a;;
  check_bitbucket E.

(** Everything [main()] does before the first loop. *)
Definition setup (E : env) (a : Args) : M world unit :=
  (if bool_decide (GITHUB_TOKEN E = None) || bool_decide (BB_TOKEN E = None) then
     logger_error "Please provide GitHub and Bitbucket tokens in .env file";;
     exit 1
   else mret tt);;
  match level_of_name (log_level a) with
  | None =>
      logger_error "Invalid log level provided. Please provide one of DEBUG, INFO, WARNING, ERROR, CRITICAL";;
      exit 1
  | Some l =>
      setLevel l;;
      prepare E a
  end.

Definition tag_all (E : env) (a : Args) (ids : list Z) : M world unit :=
  for_each (tag_body E a) ids.

Definition push_all (E : env) (a : Args) (ids : list Z) : M world unit :=
  for_each (push_body E a) ids.

Definition main (E : env) (a : Args) : M world unit :=
  setup E a;;
  ids ← the_pr_ids a;
  logger_info ("Scanning PRs for project: " +:+ bb_project a +:+ ", repo: " +:+ bb_repo_slug a
               +:+ ", total PRs: " +:+ str_of_int (Z.of_nat (length ids)));;
  tag_all E a ids;;
  logger_info "Done tagging PRs";;
  logger_info ("Fetching tags for " +:+ bb_repo_url a);;
  perform (Fetch "origin" "+refs/tags/*:refs/tags/*") (fetch_after_tagging E);;
  ids ← the_pr_ids a;
  push_all E a ids.

End WithBuiltins.

(** *** Vocabulary of the statements about the transfer utility *)


(** Calls made on behalf of one work item. *)
Definition is_item_call (c : call) : bool :=
  match c with GetPullRequest _ _ _ | SetTag _ _ _ _ | Push _ _ => true | _ => false end.

Definition no_calls (p : call -> bool) (w : world) : Prop :=
  Forall (fun c => p c = false) (calls w).

(** The root logger lets records of level INFO through. *)
Definition info_enabled (w : world) : Prop := level_no (root_level w) <= level_no INFO.

Definition log_has (r : record) (w : world) : Prop := r ∈ log w.

Definition tagging_record (d : pull_request) (commit_hash : string) : record :=
  (INFO, "Tagging commit " +:+ commit_hash +:+ " with tag " +:+ tag_name_of (id d)).

Definition pushing_record (n : Z) : record :=
  (INFO, "Pushing tag " +:+ tag_name_of n +:+ " to GitHub").

(** The world after the lookup of PR [n] returned [d], whose head commit is
    [commit_hash]. *)
Definition looked_up (a : Args) (n : Z) (d : pull_request) (commit_hash : string)
    (w : world) : world :=
  log_add INFO ("Tagging commit " +:+ commit_hash +:+ " with tag " +:+ tag_name_of (id d))
    (log_add DEBUG ("PR: " +:+ pr_str d)
       (call_add (GetPullRequest (bb_project a) (bb_repo_slug a) n)
          (log_add INFO ("Processing PR: " +:+ str_of_int n) w))).

(** The environment [E] with [input] on the standard input. *)
Definition with_stdin (E : env) (input : string) : env := {|
  GITHUB_TOKEN := GITHUB_TOKEN E;
  BB_TOKEN := BB_TOKEN E;
  BB_USER := BB_USER E;
  stdin_isatty := stdin_isatty E;
  stdin_read := input;
  path_exists := path_exists E;
  clone_from := clone_from E;
  repo_remotes := repo_remotes E;
  fetch_on_open := fetch_on_open E;
  fetch_after_tagging := fetch_after_tagging E;
  project_list := project_list E;
  get_pull_request := get_pull_request E;
  set_tag := set_tag E;
  push := push E
|}.

(** Every non-empty line of [input] is accepted by [int]. *)
Definition stdin_parses (int_ : string -> option Z) (input : string) : Prop :=
  Forall (fun piece => is_Some (int_ piece))
         (filter (fun piece => piece ≠ EmptyString) (split_nl input)).

End Transfer.

(** ** Properties of computations, whatever the state *)
Section Computations.
Context {S : Type}.

(** The loop goes on after [c]: it ends normally or with [continue]. *)
Definition goes_on (c : M S unit) : Prop :=
  forall s, (c s).1 = inl tt \/ (c s).1 = inr Continue.

(** [c] keeps the property [P] of the state, however it ends. *)
Definition preserves (P : S -> Prop) {A} (c : M S A) : Prop :=
  forall s, P s -> P (c s).2.

End Computations.

(** ** The scenarios the examples run *)
Module Scenario.

Definition diff_url_of (n : Z) : string :=
  "https://github.com/miroapp-dev/server/pull/" +:+ str_of_int n +:+ ".diff".

(** PR 18057 has no commits and no diff (404), PR 32559 has commits, PR 777
    has no commits but a diff; every other PR is unknown. *)
Definition github : Scanner.remote := {|
  Scanner.get_pull n :=
    if n =? 18057 then inl {| Scanner.commits := 0; Scanner.diff_url := diff_url_of n |}
    else if n =? 32559 then inl {| Scanner.commits := 3; Scanner.diff_url := diff_url_of n |}
    else if n =? 777 then inl {| Scanner.commits := 0; Scanner.diff_url := diff_url_of n |}
    else inr UnknownObjectException;
  Scanner.requests_get url :=
    if bool_decide (url = diff_url_of 18057) then inl 404 else inl 200
|}.

Definition scan_args (prs : option (list Z)) (s e : option Z) (dry : bool) : Scanner.Args := {|
  Scanner.start := s;
  Scanner.end_ := e;
  Scanner.pr := prs;
  Scanner.state_dir := "data";
  Scanner.dry_run := dry;
  Scanner.log_level := "INFO";
  Scanner.repo := "miroapp-dev/server"
|}.

(** The arguments [a] with [--state-dir dir]. *)
Definition in_state_dir (dir : string) (a : Scanner.Args) : Scanner.Args := {|
  Scanner.start := Scanner.start a;
  Scanner.end_ := Scanner.end_ a;
  Scanner.pr := Scanner.pr a;
  Scanner.state_dir := dir;
  Scanner.dry_run := Scanner.dry_run a;
  Scanner.log_level := Scanner.log_level a;
  Scanner.repo := Scanner.repo a
|}.

Definition digit_of (c : ascii) : option Z :=
  let n := Z.of_N (N_of_ascii c) in
  if (48 <=? n) && (n <=? 57) then Some (n - 48) else None.

Fixpoint digits_value (acc : Z) (s : string) : option Z :=
  match s with
  | EmptyString => Some acc
  | String c s' =>
      match digit_of c with
      | Some d => digits_value (10 * acc + d) s'
      | None => None
      end
  end.

(** The builtin [int] on the texts the scenarios feed it: non-empty runs
    of decimal digits are read, anything else is refused. *)
Definition int_digits (s : string) : option Z :=
  match s with
  | EmptyString => None
  | _ => digits_value 0 s
  end.

Definition transfer_args (ids : option (list Z)) (dry : bool) (lvl : string) : Transfer.Args := {|
  Transfer.bb_repo_url := "https://code.devrtb.com/scm/rtb/server.git";
  Transfer.bb_api_url := "https://code.devrtb.com";
  Transfer.gh_repo_url := "https://github.com/miroapp-dev/server";
  Transfer.pr_ids := ids;
  Transfer.dry_run := dry;
  Transfer.log_level := lvl;
  Transfer.repo_dir := "git-repo";
  Transfer.bb_project := "RTB";
  Transfer.bb_repo_slug := "server"
|}.

Definition pr42 : Transfer.pull_request :=
  {| Transfer.id := 42; Transfer.latestCommit := Some "abc123"; Transfer.pr_str := "{'id': 42}" |}.

(** Tokens set, an existing mirror with both remotes, PR 42 known with head
    [abc123]; the lookup of PR 41 fails with status 500, every other PR is
    unknown (404); the tag of PR 42 exists already when [tagged] is set. *)
Definition bitbucket (tty : bool) (input : string) (tagged : bool) : Transfer.env := {|
  Transfer.GITHUB_TOKEN := Some "gh";
  Transfer.BB_TOKEN := Some "bb";
  Transfer.BB_USER := Some "user";
  Transfer.stdin_isatty := tty;
  Transfer.stdin_read := input;
  Transfer.path_exists := fun _ => true;
  Transfer.clone_from := None;
  Transfer.repo_remotes := [("origin", "https://code.devrtb.com/scm/rtb/server.git");
                            ("github", "https://github.com/miroapp-dev/server")];
  Transfer.fetch_on_open := None;
  Transfer.fetch_after_tagging := None;
  Transfer.project_list := inl ["{'key': 'RTB'}"];
  Transfer.get_pull_request := fun n =>
    if n =? 42 then inl pr42
    else if n =? 41 then inr (HTTPError 500)
    else inr (HTTPError 404);
  Transfer.set_tag := fun _ _ => if tagged then Some (HTTPError 409) else None;
  Transfer.push := fun _ => None
|}.


End Scenario.

(** ** Vocabulary of the statements about whole runs *)
Module Trace.

(** One line of a log file. *)
Definition line (n : Z) : string := str_of_int n +:+ nl.

(** The lines of the identifiers [ns], in order. *)
Definition lines (ns : list Z) : string := foldr (fun n rest => line n +:+ rest) EmptyString ns.




(** The four files of the state directory. *)
Definition state_files (a : Scanner.Args) : list string :=
  [Scanner.pr_not_found_file a; Scanner.broken_prs_file a;
   Scanner.pr_ex_file a; Scanner.last_issue_file a].

(** The selection arguments that pass the checks of the scanner. *)
Definition selection_accepted (a : Scanner.Args) : Prop :=
  (Scanner.pr a <> None /\ Scanner.start a = None /\ Scanner.end_ a = None)
  \/ (Scanner.pr a = None /\ (Scanner.start a <> None \/ Scanner.end_ a <> None)).

(** The identifiers the scanner works on when the selection is complete. *)
Definition selected (a : Scanner.Args) : option (list Z) :=
  match Scanner.pr a, Scanner.start a, Scanner.end_ a with
  | Some prs, None, None => Some prs
  | None, Some s, Some e => Some (range s e)
  | _, _, _ => None
  end.

(** The lookup of PR [n] fails with an HTTP status other than 404. *)
Definition bad_lookup (E : Transfer.env) (n : Z) : bool :=
  match Transfer.get_pull_request E n with
  | inr (HTTPError status_code) => negb (status_code =? 404)
  | _ => false
  end.

(** The calls of the iteration of the first loop on PR [n]. *)
Definition tag_calls (E : Transfer.env) (a : Transfer.Args) (n : Z) : list Transfer.call :=
  Transfer.GetPullRequest (Transfer.bb_project a) (Transfer.bb_repo_slug a) n ::
    match Transfer.get_pull_request E n with
    | inl d =>
        match Transfer.latestCommit d with
        | Some c =>
            if Transfer.dry_run a then []
            else [Transfer.SetTag (Transfer.bb_project a) (Transfer.bb_repo_slug a)
                    (Transfer.tag_name_of (Transfer.id d)) c]
        | None => []
        end
    | inr _ => []
    end.

Definition is_push (c : Transfer.call) : bool :=
  match c with Transfer.Push _ _ => true | _ => false end.

(** The settings that end the transfer utility before it does anything. *)
Definition config_error (E : Transfer.env) (a : Transfer.Args) : Prop :=
  (Transfer.GITHUB_TOKEN E = None \/ Transfer.BB_TOKEN E = None)
  \/ Transfer.level_of_name (Transfer.log_level a) = None
  \/ (Transfer.pr_ids a = None /\ Transfer.stdin_isatty E = true).

(** The world in which the loop of the scanner starts. *)
Definition at_loop_start (a : Scanner.Args) (n_issues : nat) (w : Scanner.world)
    : Scanner.world :=
  Scanner.log_add INFO ("Scanning issues for broken PRs, total issues: "
                        +:+ str_of_int (Z.of_nat n_issues))
    ((if Scanner.dry_run a
      then Scanner.log_add INFO "Dry run mode, not creating state files"
      else Scanner.dir_add (Scanner.state_dir a))
       (Scanner.log_add INFO "generating issues list"
          (Scanner.log_add INFO "Loading environment variables" w))).

(** The file at [path] is in [w] as it is in [w0]. *)
Definition same_file (path : string) (w0 w : Scanner.world) : Prop :=
  Scanner.files w !! path = Scanner.files w0 !! path.

(** The URL of the [github] remote of the mirror, if it has one. *)
Definition github_url (w : Transfer.world) : option string :=
  (list_to_map (Transfer.remotes w) : gmap string string) !! "github".

(** The text [s] holds no newline. *)
Fixpoint no_newline (s : string) : Prop :=
  match s with
  | EmptyString => True
  | String c s' => c <> "010"%char /\ no_newline s'
  end.

(** The root logger is at level [l] and no record of the log is below [l]. *)
Definition filtered (l : level) (w : Transfer.world) : Prop :=
  Transfer.root_level w = l
  /\ Forall (fun r : record => level_no l <= level_no r.1) (Transfer.log w).

(** The records of [rs] that a logger at level [l] lets through. *)
Definition emitted (l : level) (rs : list record) : list record :=
  List.filter (fun r : record => level_no l <=? level_no r.1) rs.







End Trace.

(** ** Facts about texts, loops and invariants *)

Example str_of_int_ex :
  str_of_int 18057 = "18057" /\ str_of_int (-3) = "-3" /\ str_of_int 0 = "0".
Proof. repeat split; reflexivity. Qed.

Example range_ex : range 3 6 = [3; 4; 5] /\ range 5 5 = [] /\ range 7 2 = [].
Proof. repeat split; reflexivity. Qed.

Example makedirs_names_ex :
  Scanner.makedirs_names "data" = ["data"]
  /\ Scanner.makedirs_names "out/run1/data" = ["out"; "out/run1"; "out/run1/data"]
  /\ Scanner.makedirs_names "/srv/state/" = ["/srv"; "/srv/state"]
  /\ Scanner.makedirs_names "a//b" = ["a"; "a//b"].
Proof. repeat split; reflexivity. Qed.

Example os_path_join_ex :
  os_path_join "data" "last_issue.txt" = "data/last_issue.txt"
  /\ os_path_join "data/" "last_issue.txt" = "data/last_issue.txt"
  /\ os_path_join EmptyString "last_issue.txt" = "last_issue.txt".
Proof. repeat split; reflexivity. Qed.

Lemma append_nil_r (s : string) : s +:+ EmptyString = s.
Proof.
  induction s as [|c s IH]; [done|].
  change (String c (s +:+ EmptyString) = String c s). by rewrite IH.
Qed.

Lemma append_assoc (s1 s2 s3 : string) : (s1 +:+ s2) +:+ s3 = s1 +:+ s2 +:+ s3.
Proof.
  induction s1 as [|c s1 IH]; [done|].
  change (String c ((s1 +:+ s2) +:+ s3) = String c (s1 +:+ s2 +:+ s3)). by rewrite IH.
Qed.

Lemma append_length (s t : string) :
  String.length (s +:+ t) = (String.length s + String.length t)%nat.
Proof.
  induction s as [|c s IH]; [done|].
  change (S (String.length (s +:+ t)) = S (String.length s + String.length t)).
  by rewrite IH.
Qed.

Lemma append_grows (s t : string) : String.length t <> 0%nat -> s +:+ t <> s.
Proof.
  intros Ht Heq. apply (f_equal String.length) in Heq.
  rewrite append_length in Heq. lia.
Qed.

Lemma line_not_empty n : String.length (str_of_int n +:+ nl) <> 0%nat.
Proof. rewrite append_length. simpl. lia. Qed.

Lemma os_path_join_ne d x y :
  starts_with_sep x = false -> starts_with_sep y = false -> x <> y ->
  os_path_join d x <> os_path_join d y.
Proof.
  unfold os_path_join. intros -> -> Hne Heq.
  by apply Hne, (inj (String.append (join_prefix d))).
Qed.

Lemma map_seq_shift (a b : Z) (j j' k : nat) :
  a + Z.of_nat j = b + Z.of_nat j' ->
  map (fun i => a + Z.of_nat i) (seq j k) = map (fun i => b + Z.of_nat i) (seq j' k).
Proof.
  revert j j'. induction k as [|k IH]; intros j j' H; [done|].
  simpl. f_equal; [done|]. apply IH. lia.
Qed.

Lemma range_split (s m e : Z) : s <= m <= e -> range s e = range s m ++ range m e.
Proof.
  intros H. unfold range.
  replace (Z.to_nat (e - s)) with (Z.to_nat (m - s) + Z.to_nat (e - m))%nat by lia.
  rewrite seq_app, map_app. f_equal. apply map_seq_shift. lia.
Qed.

Lemma emit_elem th lvl msg l :
  level_no th <= level_no lvl -> (lvl, msg) ∈ emit th lvl msg l.
Proof.
  intros H. unfold emit. apply Z.leb_le in H. rewrite H.
  apply elem_of_app. right. by left.
Qed.

Lemma emit_grows r th lvl msg l : r ∈ l -> r ∈ emit th lvl msg l.
Proof.
  intros H. unfold emit. destruct (_ <=? _); [|done]. apply elem_of_app. by left.
Qed.

Section ForEach.
Context {S A : Type} (body : A -> M S unit).

Lemma for_each_app xs ys s :
  (forall x, goes_on (body x)) ->
  for_each body (xs ++ ys) s = for_each body ys (for_each body xs s).2.
Proof.
  intros Hb. revert s. induction xs as [|x xs IH]; intros s; [done|].
  simpl. destruct (Hb x s) as [H|H]; destruct (body x s) as [[[]|[e| |c]] s'];
    simpl in H; try discriminate; apply IH.
Qed.

Lemma for_each_goes_on xs s :
  (forall x, goes_on (body x)) -> (for_each body xs s).1 = inl tt.
Proof.
  intros Hb. revert s. induction xs as [|x xs IH]; intros s; [done|].
  simpl. destruct (Hb x s) as [H|H]; destruct (body x s) as [[[]|[e| |c]] s'];
    simpl in H; try discriminate; apply IH.
Qed.

End ForEach.

Section Preserves.
Context {S : Type} (P : S -> Prop).

Lemma preserves_ret {A} (a : A) : preserves P (mret a).
Proof. by intros s. Qed.

Lemma preserves_throw {A} sg : preserves P (throw sg : M S A).
Proof. by intros s. Qed.

Lemma preserves_gets {A} (f : S -> A) : preserves P (gets f).
Proof. by intros s. Qed.

Lemma preserves_modify (f : S -> S) :
  (forall s, P s -> P (f s)) -> preserves P (modify f).
Proof. intros Hf s. apply Hf. Qed.

Lemma preserves_bind {A B} (c : M S A) (k : A -> M S B) :
  preserves P c -> (forall a, preserves P (k a)) -> preserves P (c ≫= k).
Proof.
  intros Hc Hk s Hs. unfold mbind, M_bind. specialize (Hc s Hs).
  destruct (c s) as [[a|sg] s']; simpl in *; [by apply Hk|done].
Qed.

Lemma preserves_try {A} catches (c : M S A) h :
  preserves P c -> (forall e, preserves P (h e)) ->
  preserves P (try_except catches c h).
Proof.
  intros Hc Hh s Hs. unfold try_except. specialize (Hc s Hs).
  destruct (c s) as [[a|[e| |n]] s']; simpl in *; try done.
  destruct (catches e); [by apply Hh|done].
Qed.

Lemma preserves_for_each {A} (body : A -> M S unit) xs :
  (forall x, preserves P (body x)) -> preserves P (for_each body xs).
Proof.
  intros Hb. induction xs as [|x xs IH]; intros s Hs; [done|].
  simpl. specialize (Hb x s Hs).
  destruct (body x s) as [[[]|[e| |n]] s']; simpl in *; try done; by apply IH.
Qed.

End Preserves.

Ltac preserves_step :=
  first
    [ apply preserves_bind | apply preserves_try | apply preserves_for_each
    | apply preserves_ret | apply preserves_throw | apply preserves_gets
    | match goal with |- forall _, _ => intro end
    | match goal with |- preserves _ (match ?x with _ => _ end) => destruct x end
    | match goal with |- preserves _ (if ?x then _ else _) => destruct x end ].


Lemma bind_cong_l {S A B} (c c' : M S A) (k : A -> M S B) s :
  c s = c' s -> (c ≫= k) s = (c' ≫= k) s.
Proof. unfold mbind, M_bind. by intros ->. Qed.

Lemma bind_inl {S A B} (c : M S A) (k : A -> M S B) s b s' :
  (c ≫= k) s = (inl b, s') -> exists a s1, c s = (inl a, s1) /\ k a s1 = (inl b, s').
Proof.
  unfold mbind, M_bind. destruct (c s) as [[a|sg] s1]; [|done]. intros H. by exists a, s1.
Qed.

(** ** The scanner *)
Module ScannerFacts.
Import Scanner.

Ltac run_scanner :=
  cbv [loop_body try_except mbind M_bind mret M_ret raise throw continue exit modify
       logger_info logger_error logger_exception logging_emit write_to_file open_ f_write
       issue_call do_get_pull do_requests_get any_Exception
       is_UnknownObjectException fmt fst snd number].

(** The cases of one iteration: the answer to the lookup, the commit count,
    the answer to the diff request, its status, and the mode. *)
Ltac split_cases a R p :=
  destruct (get_pull R _) as [p|[]];
  [ destruct (commits p =? 0);
    [ destruct (requests_get R (diff_url p)) as [?c|?e];
      [ destruct (no_diff_status _) | ] | ] | .. ];
  destruct (dry_run a); cbn [fst snd negb andb].

(** *** The loop never leaves early *)
Lemma loop_body_goes_on a R issue : goes_on (loop_body a R issue).
Proof.
  intros w. run_scanner. split_cases a R p; auto.
Qed.

Lemma scan_completes a R issues w : (scan a R issues w).1 = inl tt.
Proof. apply for_each_goes_on. intros x. apply loop_body_goes_on. Qed.

(** *** The four state files *)
Lemma state_files_distinct a :
  broken_prs_file a <> pr_not_found_file a
  /\ broken_prs_file a <> pr_ex_file a
  /\ broken_prs_file a <> last_issue_file a
  /\ pr_not_found_file a <> pr_ex_file a
  /\ pr_not_found_file a <> last_issue_file a
  /\ pr_ex_file a <> last_issue_file a.
Proof. repeat split; by apply os_path_join_ne. Qed.

Ltac files_simpl a :=
  let H := fresh in
  pose proof (state_files_distinct a) as H;
  destruct H as (? & ? & ? & ? & ? & ?);
  cbv [content file_append file_open log_add call_add dir_add files dirs log calls number];
  cbn [default];
  repeat first
    [ rewrite lookup_insert_eq
    | rewrite lookup_insert_ne by congruence
    | match goal with
      | H : ?fs !! ?f = _ |- context [?fs !! ?f] => rewrite H
      end
    | match goal with
      | |- context [match ?fs !! ?f with _ => _ end] =>
          is_var fs; destruct (fs !! f) eqn:?
      end
    | progress cbn [default] ].

Lemma broken_file_after a R n w :
  files (loop_body a R {| number := n |} w).2 !! broken_prs_file a =
  match get_pull R n with
  | inl p =>
      if commits p =? 0 then
        match requests_get R (diff_url p) with
        | inl c =>
            if no_diff_status c && negb (dry_run a)
            then Some (content w (broken_prs_file a) +:+ str_of_int n +:+ nl)
            else files w !! broken_prs_file a
        | inr _ => files w !! broken_prs_file a
        end
      else files w !! broken_prs_file a
  | inr _ => files w !! broken_prs_file a
  end.
Proof.
  destruct w as [fs ds lg cs]. run_scanner.
  split_cases a R p; files_simpl a; first [reflexivity | congruence].
Qed.

Lemma not_found_file_after a R n w :
  files (loop_body a R {| number := n |} w).2 !! pr_not_found_file a =
  match get_pull R n with
  | inr UnknownObjectException =>
      if dry_run a then files w !! pr_not_found_file a
      else Some (content w (pr_not_found_file a) +:+ str_of_int n +:+ nl)
  | _ => files w !! pr_not_found_file a
  end.
Proof.
  destruct w as [fs ds lg cs]. run_scanner.
  split_cases a R p; files_simpl a; first [reflexivity | congruence].
Qed.

Lemma calls_after a R n w :
  calls (loop_body a R {| number := n |} w).2 =
  calls w ++ GetPull "miroapp-dev/server" n ::
    match get_pull R n with
    | inl p => if commits p =? 0 then [RequestsGet (diff_url p)] else []
    | inr _ => []
    end.
Proof.
  destruct w as [fs ds lg cs]. run_scanner.
  split_cases a R p; files_simpl a; by rewrite <- ?app_assoc.
Qed.




Lemma no_diff_status_spec c : no_diff_status c = true <-> c = 404 \/ c = 422.
Proof. unfold no_diff_status. rewrite orb_true_iff, !Z.eqb_eq. done. Qed.

Lemma not_appended w file line :
  String.length line <> 0%nat -> ~ appended w w file line.
Proof.
  intros Hl. unfold appended, content.
  destruct (files w !! file) as [s|]; simpl; [|done].
  intros [=Heq]. symmetry in Heq. by apply append_grows in Heq.
Qed.

(** C5. Outside dry runs an iteration appends the PR number to the broken log
    exactly when the PR is found, reports no commits and its diff request
    answers 404 or 422; in no mode is the number appended without those
    answers, and a dry run leaves the broken log as it is.  A PR with
    commits causes no diff request and no change of the broken log; a PR
    without commits whose diff request answers another status changes
    neither the broken nor the not-found log. *)
Theorem broken_log_iff a R n w :
  let w' := (loop_body a R {| number := n |} w).2 in
  let line := str_of_int n +:+ nl in
  (dry_run a = false ->
     (appended w w' (broken_prs_file a) line <-> answers_broken R n))
  /\ (appended w w' (broken_prs_file a) line -> answers_broken R n)
  /\ (forall p, get_pull R n = inl p -> commits p > 0 ->
        calls w' = calls w ++ [GetPull "miroapp-dev/server" n]
        /\ files w' !! broken_prs_file a = files w !! broken_prs_file a)
  /\ (forall p c, get_pull R n = inl p -> commits p = 0 ->
        requests_get R (diff_url p) = inl c -> c <> 404 -> c <> 422 ->
        files w' !! broken_prs_file a = files w !! broken_prs_file a
        /\ files w' !! pr_not_found_file a = files w !! pr_not_found_file a)
  /\ (dry_run a = true ->
        files w' !! broken_prs_file a = files w !! broken_prs_file a).
Proof.
  intros w' line. subst w'.
  pose proof (not_appended w (broken_prs_file a) line (line_not_empty n)) as Hfix.
  assert (Honly : appended w (loop_body a R {| number := n |} w).2
                    (broken_prs_file a) line -> answers_broken R n).
  { unfold appended in *. rewrite broken_file_after. unfold answers_broken.
    destruct (get_pull R n) as [p|e]; [|done].
    destruct (commits p =? 0) eqn:Hc; [apply Z.eqb_eq in Hc|done].
    destruct (requests_get R (diff_url p)) as [c|e] eqn:Hr; [|done].
    destruct (no_diff_status c) eqn:Hst; [|done].
    intros _. exists p, c. by rewrite <- no_diff_status_spec. }
  split; [|split; [done|split; [|split]]].
  - intros Hdry. split; [done|].
    intros (p & c & Hp & Hc & Hr & Hst). unfold appended.
    rewrite broken_file_after, Hp, Hr, Hdry.
    apply Z.eqb_eq in Hc. apply no_diff_status_spec in Hst. by rewrite Hc, Hst.
  - intros p Hp Hc. rewrite calls_after, broken_file_after, Hp.
    by assert ((commits p =? 0) = false) as -> by lia.
  - intros p c Hp Hc Hr H404 H422.
    rewrite broken_file_after, not_found_file_after, Hp, Hr.
    assert ((commits p =? 0) = true) as -> by lia.
    assert (no_diff_status c = false) as ->; [|done].
    unfold no_diff_status. apply orb_false_iff. lia.
  - intros Hdry. rewrite broken_file_after, Hdry.
    destruct (get_pull R n) as [p|e]; [|done].
    destruct (commits p =? 0); [|done].
    destruct (requests_get R (diff_url p)) as [c|e]; [|done].
    by destruct (no_diff_status c).
Qed.

(** In a dry run PR 18057 is found without commits, its diff request answers
    404, and its number is not appended to the broken log.  Outside dry
    runs PR 777, found without commits and with a diff (status 200), is
    appended to the exceptions log. *)
Lemma broken_log_counterexample :
  let dry := Scenario.scan_args (Some [18057]) None None true in
  let wet := Scenario.scan_args (Some [777]) None None false in
  (dry_run dry = true
   /\ answers_broken Scenario.github 18057
   /\ ~ appended empty_world
         (loop_body dry Scenario.github {| number := 18057 |} empty_world).2
         (broken_prs_file dry) (str_of_int 18057 +:+ nl))
  /\ (dry_run wet = false
      /\ get_pull Scenario.github 777
         = inl {| commits := 0; diff_url := Scenario.diff_url_of 777 |}
      /\ requests_get Scenario.github (Scenario.diff_url_of 777) = inl 200
      /\ appended empty_world
           (loop_body wet Scenario.github {| number := 777 |} empty_world).2
           (pr_ex_file wet) (str_of_int 777 +:+ nl)).
Proof.
  split; [split; [reflexivity|split]|].
  - exists {| commits := 0; diff_url := Scenario.diff_url_of 18057 |}, 404.
    split; [reflexivity|]. split; [reflexivity|]. split; [reflexivity|by left].
  - unfold appended. vm_compute. discriminate.
  - split; [reflexivity|]. split; [reflexivity|]. split; [reflexivity|].
    unfold appended. vm_compute. reflexivity.
Qed.

Lemma broken_log_iff_witness :
  let a := Scenario.scan_args (Some [18057]) None None false in
  dry_run a = false
  /\ (appended empty_world (loop_body a Scenario.github {| number := 18057 |} empty_world).2
        (broken_prs_file a) (str_of_int 18057 +:+ nl)
      <-> answers_broken Scenario.github 18057).
Proof.
  split; [reflexivity|].
  apply (proj1 (broken_log_iff (Scenario.scan_args (Some [18057]) None None false)
                  Scenario.github 18057 empty_world)).
  reflexivity.
Defined.

(** *** Effects only add to the world *)
Lemma world_eq (w1 w2 : world) :
  files w1 = files w2 -> dirs w1 = dirs w2 -> log w1 = log w2 -> calls w1 = calls w2 ->
  w1 = w2.
Proof. destruct w1, w2; simpl; congruence. Qed.

Lemma merge_empty_r w : merge w empty_world = w.
Proof.
  apply world_eq; simpl.
  - apply map_eq; intros i. rewrite lookup_union_with, lookup_empty.
    by destruct (files w !! i).
  - by rewrite union_empty_r_L.
  - by rewrite app_nil_r.
  - by rewrite app_nil_r.
Qed.

Lemma merge_empty_l w : merge empty_world w = w.
Proof.
  apply world_eq; simpl; [|by rewrite union_empty_l_L|done..].
  apply map_eq; intros i. rewrite lookup_union_with, lookup_empty.
  by destruct (files w !! i).
Qed.

Lemma merge_assoc w d1 d2 : merge (merge w d1) d2 = merge w (merge d1 d2).
Proof.
  apply world_eq; simpl.
  - apply map_eq; intros i. rewrite !lookup_union_with.
    destruct (files w !! i), (files d1 !! i), (files d2 !! i); simpl; try done.
    by rewrite append_assoc.
  - by rewrite (assoc_L (∪)).
  - by rewrite app_assoc.
  - by rewrite app_assoc.
Qed.

Lemma uniform_intro {A} (c : M world A) r d :
  (forall w, c w = (r, merge w d)) -> uniform c.
Proof.
  intros H w. rewrite (H empty_world), merge_empty_l. simpl. apply H.
Qed.

Lemma uniform_ret {A} (a : A) : uniform (mret a : M world A).
Proof.
  apply (uniform_intro _ (inl a) empty_world). intros w. by rewrite merge_empty_r.
Qed.

Lemma uniform_throw {A} sg : uniform (throw sg : M world A).
Proof.
  apply (uniform_intro _ (inr sg) empty_world). intros w. by rewrite merge_empty_r.
Qed.

Lemma uniform_bind {A B} (c : M world A) (k : A -> M world B) :
  uniform c -> (forall a, uniform (k a)) -> uniform (c ≫= k).
Proof.
  intros Hc Hk w. unfold mbind, M_bind.
  rewrite (Hc w). destruct (c empty_world) as [[a|sg] d]; simpl; [|done].
  rewrite (Hk a (merge w d)), (Hk a d). simpl. by rewrite merge_assoc.
Qed.

Lemma uniform_try {A} catches (c : M world A) h :
  uniform c -> (forall e, uniform (h e)) -> uniform (try_except catches c h).
Proof.
  intros Hc Hh w. unfold try_except.
  rewrite (Hc w). destruct (c empty_world) as [[a|[e| |n]] d]; simpl; try done.
  destruct (catches e); [|done].
  rewrite (Hh e (merge w d)), (Hh e d). simpl. by rewrite merge_assoc.
Qed.

Lemma uniform_for_each {A} (body : A -> M world unit) xs :
  (forall x, uniform (body x)) -> uniform (for_each body xs).
Proof.
  intros Hb. induction xs as [|x xs IH]; [apply uniform_ret|].
  intros w. simpl. rewrite (Hb x w).
  destruct (body x empty_world) as [[[]|[e| |n]] d]; simpl; try done.
  - rewrite (IH (merge w d)), (IH d). simpl. by rewrite merge_assoc.
  - rewrite (IH (merge w d)), (IH d). simpl. by rewrite merge_assoc.
Qed.

Lemma uniform_modify (f : world -> world) :
  (forall w, f w = merge w (f empty_world)) -> uniform (modify f).
Proof.
  intros Hf. apply (uniform_intro _ (inl tt) (f empty_world)).
  intros w. unfold modify. by rewrite <- Hf.
Qed.

Lemma log_add_merge lvl msg w : log_add lvl msg w = merge w (log_add lvl msg empty_world).
Proof.
  apply world_eq; simpl.
  - apply map_eq; intros i. rewrite lookup_union_with, lookup_empty.
    by destruct (files w !! i).
  - by rewrite union_empty_r_L.
  - unfold emit. destruct (_ <=? _); simpl; by rewrite ?app_nil_r.
  - by rewrite app_nil_r.
Qed.

Lemma call_add_merge c w : call_add c w = merge w (call_add c empty_world).
Proof.
  apply world_eq; simpl.
  - apply map_eq; intros i. rewrite lookup_union_with, lookup_empty.
    by destruct (files w !! i).
  - by rewrite union_empty_r_L.
  - by rewrite app_nil_r.
  - done.
Qed.

Lemma file_open_a_merge file w :
  file_open file mode_a w = merge w (file_open file mode_a empty_world).
Proof.
  apply world_eq; simpl; [|by rewrite union_empty_r_L|by rewrite app_nil_r..].
  apply map_eq; intros i. rewrite lookup_union_with, lookup_empty.
  destruct (decide (i = file)) as [->|Hne].
  - rewrite lookup_insert_eq. destruct (files w !! file) as [c|] eqn:Hc; simpl.
    + by rewrite Hc, append_nil_r.
    + by rewrite lookup_insert_eq.
  - rewrite lookup_insert_ne by done. rewrite lookup_empty.
    destruct (files w !! file) eqn:Hc; simpl.
    + by destruct (files w !! i).
    + rewrite lookup_insert_ne by done. by destruct (files w !! i).
Qed.

Lemma file_append_merge file s w :
  file_append file s w = merge w (file_append file s empty_world).
Proof.
  apply world_eq; simpl; [|by rewrite union_empty_r_L|by rewrite app_nil_r..].
  apply map_eq; intros i. rewrite lookup_union_with, lookup_empty.
  destruct (decide (i = file)) as [->|Hne].
  - rewrite !lookup_insert_eq. by destruct (files w !! file).
  - rewrite !lookup_insert_ne by done. rewrite lookup_empty.
    by destruct (files w !! i).
Qed.

Lemma uniform_log lvl msg : uniform (logging_emit lvl msg).
Proof. apply uniform_modify, log_add_merge. Qed.

(** The script opens its files for appending only. *)
Lemma uniform_write_to_file file data dry newline :
  uniform (write_to_file file data mode_a dry newline).
Proof.
  unfold write_to_file. destruct dry.
  - apply uniform_modify, log_add_merge.
  - apply uniform_bind; [apply uniform_modify, file_open_a_merge|]. intros _.
    destruct newline; [apply uniform_modify, file_append_merge|].
    destruct data; [apply uniform_throw|apply uniform_modify, file_append_merge].
Qed.

Lemma uniform_loop_body a R issue : uniform (loop_body a R issue).
Proof.
  unfold loop_body, do_get_pull, do_requests_get.
  repeat first
    [ apply uniform_try | apply uniform_bind | apply uniform_log
    | apply uniform_write_to_file | apply uniform_ret | apply uniform_throw
    | apply uniform_modify, call_add_merge
    | match goal with |- forall _, _ => intro end
    | match goal with |- uniform (match ?x with _ => _ end) => destruct x end
    | match goal with |- uniform (if ?x then _ else _) => destruct x end ].
Qed.

(** C8. Resuming after the marker value [m]: the run over [m+1 .. e) adds
    to whatever world it starts from the same records [d]; a fresh run over
    [s .. e) adds these same records after those of [s .. m+1); each
    iteration adds the same records whatever was processed before it, and
    they are determined by the answers of the remote for its own PR. *)
Theorem resume_reproduces a R (s m e : Z) (w0 w1 : world) :
  s <= m + 1 <= e ->
  let d := (scan a R (issues_of (range (m + 1) e)) empty_world).2 in
  (scan a R (issues_of (range (m + 1) e)) w1).2 = merge w1 d
  /\ (scan a R (issues_of (range s e)) w0).2
     = merge (scan a R (issues_of (range s (m + 1))) w0).2 d
  /\ (forall n w,
        loop_body a R {| number := n |} w
        = ((loop_body a R {| number := n |} empty_world).1,
           merge w (loop_body a R {| number := n |} empty_world).2))
  /\ (forall n w R',
        get_pull R' n = get_pull R n ->
        (forall p, get_pull R n = inl p ->
                   requests_get R' (diff_url p) = requests_get R (diff_url p)) ->
        loop_body a R' {| number := n |} w = loop_body a R {| number := n |} w).
Proof.
  intros Hm d. subst d. unfold scan.
  assert (Hu : forall l, uniform (for_each (loop_body a R) l))
    by (intros l; apply uniform_for_each, uniform_loop_body).
  repeat split.
  - by rewrite (Hu _ w1).
  - rewrite (range_split s (m + 1) e Hm). unfold issues_of.
    rewrite map_app, for_each_app by (intros x; apply loop_body_goes_on).
    by rewrite (Hu _ (for_each _ _ w0).2).
  - intros n w. apply uniform_loop_body.
  - intros n w R' Hp Hr. run_scanner. rewrite Hp.
    destruct (get_pull R n) as [p|[]]; cbv beta iota;
      [by rewrite (Hr p eq_refl)|destruct (dry_run a); done..].
Qed.

Lemma resume_reproduces_witness :
  let a := Scenario.scan_args None (Some 1) (Some 6) false in
  let d := (scan a Scenario.github (issues_of (range (3 + 1) 6)) empty_world).2 in
  1 <= 3 + 1 <= 6
  /\ (scan a Scenario.github (issues_of (range 1 6)) empty_world).2
     = merge (scan a Scenario.github (issues_of (range 1 (3 + 1))) empty_world).2 d.
Proof.
  split; [lia|].
  apply (resume_reproduces (Scenario.scan_args None (Some 1) (Some 6) false)
           Scenario.github 1 3 6 empty_world empty_world).
  lia.
Defined.












(** C9. With no [--pr] and only one end of the range, the checks of the
    arguments pass and the run ends with an uncaught [TypeError] from
    [range]: nothing but the two first log lines was done, and no error
    about the arguments was reported. *)
Theorem incomplete_range_raises t a R w :
  pr a = None ->
  (start a = None /\ end_ a <> None) \/ (start a <> None /\ end_ a = None) ->
  (check_args a w).1 = inl tt
  /\ main (Some t) a R w
     = (inr (Raise TypeError),
        log_add INFO "generating issues list"
          (log_add INFO "Loading environment variables" w)).
Proof.
  intros Hpr Hse. unfold main, check_args, make_issues.
  cbv [mbind M_bind mret M_ret raise throw exit modify logger_info logger_error
       logging_emit].
  rewrite Hpr.
  destruct Hse as [[-> He]|[Hs ->]].
  - by destruct (end_ a).
  - by destruct (start a).
Qed.

Lemma incomplete_range_raises_witness :
  let a := Scenario.scan_args None (Some 1) None false in
  (pr a = None /\ start a <> None /\ end_ a = None)
  /\ (main (Some "token") a Scenario.github empty_world).1 = inr (Raise TypeError).
Proof.
  split; [by repeat split|].
  destruct (incomplete_range_raises "token"
              (Scenario.scan_args None (Some 1) None false)
              Scenario.github empty_world) as [_ H].
  - reflexivity.
  - right. split; [discriminate|reflexivity].
  - by rewrite H.
Defined.

(** *** What the runs leave in the state files *)

(** C1 (defect of the code). A run, not dry, over PR 32559 (found, with
    commits) and PR 99999999 (unknown): the loop body of 32559 reaches the
    write of the marker, which opens the file and raises; the marker file is
    left empty and 32559 is recorded as an exception.  Alone, the unknown PR
    does not even create the marker file. *)
Theorem marker_write_raises :
  let a := Scenario.scan_args (Some [32559; 99999999]) None None false in
  let w := (main (Some "token") a Scenario.github empty_world).2 in
  let a1 := Scenario.scan_args (Some [99999999]) None None false in
  let w1 := (main (Some "token") a1 Scenario.github empty_world).2 in
  files w !! last_issue_file a = Some EmptyString
  /\ files w !! pr_ex_file a = Some ("32559" +:+ nl)
  /\ files w !! pr_not_found_file a = Some ("99999999" +:+ nl)
  /\ files w1 !! last_issue_file a1 = None
  /\ files w1 !! pr_not_found_file a1 = Some ("99999999" +:+ nl).
Proof. vm_compute. repeat split; reflexivity. Qed.

(** C2 (defect of the code). A run, not dry, over PR 18057 (found, no
    commits, diff answering 404) leaves it in two logs, the broken log and
    the exceptions log, and leaves the marker file empty. *)
Theorem broken_item_in_two_logs :
  let a := Scenario.scan_args (Some [18057]) None None false in
  let w := (main (Some "token") a Scenario.github empty_world).2 in
  files w !! broken_prs_file a = Some ("18057" +:+ nl)
  /\ files w !! pr_ex_file a = Some ("18057" +:+ nl)
  /\ files w !! pr_not_found_file a = None
  /\ files w !! last_issue_file a = Some EmptyString.
Proof. vm_compute. repeat split; reflexivity. Qed.

(** C4 (defect of the code). The end-to-end scenario, not dry: the
    not-found log holds 99999999 and the broken log 18057, as expected, but
    18057 and 32559 are both in the exceptions log and the marker file is
    empty instead of holding 99999999. *)
Theorem end_to_end_scenario :
  let a := Scenario.scan_args (Some [18057; 32559; 99999999]) None None false in
  let r := main (Some "token") a Scenario.github empty_world in
  r.1 = inl tt
  /\ files r.2 !! pr_not_found_file a = Some ("99999999" +:+ nl)
  /\ files r.2 !! broken_prs_file a = Some ("18057" +:+ nl)
  /\ files r.2 !! pr_ex_file a = Some ("18057" +:+ nl +:+ "32559" +:+ nl)
  /\ files r.2 !! last_issue_file a = Some EmptyString
  /\ dirs r.2 = {[ "data" ]}.
Proof. vm_compute. repeat split; reflexivity. Qed.

End ScannerFacts.

(** ** The transfer utility *)
Module TransferFacts.
Import Transfer.

Ltac run_transfer :=
  cbv [tag_body push_body perform try_except mbind M_bind mret M_ret raise throw continue
       exit modify gets logger_debug logger_info logger_error logger_exception logging_emit
       issue_call any_Exception pr_latestCommit pr_id str_of_pr fst snd].

(** *** Invariants of the world *)
Section Leaves.
Context (P : world -> Prop).
Hypothesis P_log : forall lvl msg w, P w -> P (log_add lvl msg w).
Hypothesis P_remotes : forall rs w, P w -> P (World (root_level w) (log w) (calls w) rs).

Lemma log_preserves lvl msg : preserves P (logging_emit lvl msg).
Proof using P_log. apply preserves_modify, P_log. Qed.

Lemma set_remotes_preserves rs : preserves P (set_remotes rs).
Proof using P_remotes. apply preserves_modify, P_remotes. Qed.

Lemma perform_preserves c o :
  (forall w, P w -> P (call_add c w)) -> preserves P (perform c o).
Proof using Type.
  intros Hc. unfold perform. apply preserves_bind; [by apply preserves_modify|].
  intros _. destruct o; [apply preserves_throw|apply preserves_ret].
Qed.

End Leaves.

(** Reading the identifiers has no effect on the world. *)
Lemma int_all_pure int_ pieces w : (int_all int_ pieces w).2 = w.
Proof.
  revert w. induction pieces as [|piece rest IH]; intros w; [done|].
  simpl. destruct (int_ piece); [|done].
  unfold mbind, M_bind. specialize (IH w).
  by destruct (int_all int_ rest w) as [[]]; simpl in *; subst.
Qed.

Lemma int_all_preserves P int_ pieces : preserves P (int_all int_ pieces).
Proof. intros w Hw. by rewrite int_all_pure. Qed.

Ltac transfer_step P_log P_rem P_call :=
  first
    [ apply log_preserves; exact P_log
    | apply set_remotes_preserves; exact P_rem
    | apply int_all_preserves
    | apply perform_preserves; solve [P_call]
    | apply preserves_modify; solve [P_call]
    | preserves_step ].

Lemma no_calls_log p lvl msg w : no_calls p w -> no_calls p (log_add lvl msg w).
Proof. done. Qed.

Lemma no_calls_remotes p rs w :
  no_calls p w -> no_calls p (World (root_level w) (log w) (calls w) rs).
Proof. done. Qed.

Lemma no_calls_add p c w : p c = false -> no_calls p w -> no_calls p (call_add c w).
Proof. intros Hc Hw. apply Forall_app. split; [done|]. by constructor. Qed.

Ltac no_calls_step p :=
  transfer_step (no_calls_log p) (no_calls_remotes p)
    ltac:(first [ intros; apply no_calls_add; [reflexivity|assumption]
                | intros; assumption ]).

(** Nothing is done for a work item before the first loop. *)
Lemma setup_no_item_calls int_ E a :
  preserves (no_calls is_item_call) (setup int_ E a).
Proof.
  unfold setup, prepare, open_repo, check_github_remote, check_bitbucket, read_pr_ids,
    setLevel.
  repeat no_calls_step is_item_call.
Qed.


Lemma log_has_log r lvl msg w : log_has r w -> log_has r (log_add lvl msg w).
Proof. apply emit_grows. Qed.

Lemma log_has_remotes r rs w :
  log_has r w -> log_has r (World (root_level w) (log w) (calls w) rs).
Proof. done. Qed.

Ltac log_has_step r :=
  transfer_step (log_has_log r) (log_has_remotes r) ltac:(intros; assumption).

Lemma same_level_log l lvl msg w : root_level w = l -> root_level (log_add lvl msg w) = l.
Proof. done. Qed.

Lemma same_level_remotes l rs w :
  root_level w = l -> root_level (World (root_level w) (log w) (calls w) rs) = l.
Proof. done. Qed.

Ltac same_level_step l :=
  transfer_step (same_level_log l) (same_level_remotes l) ltac:(intros; assumption).

Lemma tag_body_log_has r E a n : preserves (log_has r) (tag_body E a n).
Proof. unfold tag_body, pr_latestCommit, pr_id. repeat log_has_step r. Qed.

Lemma push_body_log_has r E a n : preserves (log_has r) (push_body E a n).
Proof. unfold push_body. repeat log_has_step r. Qed.


Lemma push_body_same_level l E a n :
  preserves (fun w => root_level w = l) (push_body E a n).
Proof. unfold push_body. repeat same_level_step l. Qed.


(** *** One iteration of the first loop *)
Lemma tag_body_found E a n d c w :
  get_pull_request E n = inl d -> latestCommit d = Some c ->
  tag_body E a n w =
  let w1 := looked_up a n d c w in
  if dry_run a then (inl tt, w1)
  else
    let w2 := call_add (SetTag (bb_project a) (bb_repo_slug a) (tag_name_of (id d)) c) w1 in
    match set_tag E (tag_name_of (id d)) c with
    | None => (inl tt, w2)
    | Some (HTTPError status_code) =>
        if status_code =? 409
        then (inl tt, log_add INFO ("Tag " +:+ tag_name_of (id d) +:+ " already exists") w2)
        else (inl tt, w2)
    | Some e =>
        (inr Continue, log_add ERROR ("Bitbucket API error: " +:+ str_of_exn e) w2)
    end.
Proof.
  intros Hd Hc. unfold looked_up. destruct w as [lv lg cs rs]. run_transfer.
  rewrite Hd. cbv beta iota. rewrite Hc. cbv beta iota.
  destruct (dry_run a); cbv beta iota delta [negb]; [done|].
  destruct (set_tag E (tag_name_of (id d)) c) as [[]|]; try done.
  by destruct (_ =? 409).
Qed.

(** A failed lookup with a status other than 404 is caught and dropped, and
    the subscript on the identifier, still an [int], raises. *)
Lemma tag_body_http_error E a n status_code w :
  get_pull_request E n = inr (HTTPError status_code) -> status_code <> 404 ->
  tag_body E a n w =
  (inr (Raise TypeError),
   call_add (GetPullRequest (bb_project a) (bb_repo_slug a) n)
     (log_add INFO ("Processing PR: " +:+ str_of_int n) w)).
Proof.
  intros He Hne. destruct w as [lv lg cs rs]. run_transfer. rewrite He. cbv beta iota.
  apply Z.eqb_neq in Hne. by rewrite Hne.
Qed.

Lemma tag_body_logs_tagging E a n d c w :
  get_pull_request E n = inl d -> latestCommit d = Some c -> info_enabled w ->
  log_has (tagging_record d c) (tag_body E a n w).2.
Proof.
  intros Hd Hc Hw. rewrite (tag_body_found E a n d c w Hd Hc).
  assert (H1 : log_has (tagging_record d c) (looked_up a n d c w))
    by (apply emit_elem, Hw).
  cbv zeta. destruct (dry_run a); [done|].
  destruct (set_tag E _ c) as [[]|]; try done; try by apply log_has_log.
  destruct (_ =? 409); [by apply log_has_log|done].
Qed.

(** *** The second loop *)
Lemma push_body_calls E a n w :
  dry_run a = false ->
  (push_body E a n w).1 = (match push E (tag_refspec (tag_name_of n)) with
                           | None => inl tt
                           | Some _ => inr Continue
                           end)
  /\ calls (push_body E a n w).2 = calls w ++ [Push "github" (tag_refspec (tag_name_of n))].
Proof.
  intros Hdry. destruct w as [lv lg cs rs]. run_transfer. rewrite Hdry.
  cbv beta iota delta [negb]. by destruct (push E _).
Qed.

Lemma push_all_calls E a ids w :
  dry_run a = false ->
  (push_all E a ids w).1 = inl tt
  /\ calls (push_all E a ids w).2
     = calls w ++ map (fun n => Push "github" (tag_refspec (tag_name_of n))) ids.
Proof.
  intros Hdry. unfold push_all. revert w.
  induction ids as [|n ids IH]; intros w; [by rewrite app_nil_r|].
  simpl. destruct (push_body_calls E a n w Hdry) as [H1 H2].
  destruct (push_body E a n w) as [r w1]. simpl in H1, H2. subst r.
  destruct (push E _); destruct (IH w1) as [-> ->]; rewrite H2, <- app_assoc; done.
Qed.

Lemma push_body_logs_pushing E a n w :
  info_enabled w -> log_has (pushing_record n) (push_body E a n w).2.
Proof.
  intros Hw. destruct w as [lv lg cs rs]. run_transfer.
  unfold info_enabled in Hw. simpl in Hw.
  destruct (dry_run a); cbv beta iota delta [negb];
    [|destruct (push E _); cbv beta iota];
    unfold log_has, pushing_record, log_add, call_add; cbn [log root_level];
    repeat first [ by apply emit_elem | apply emit_grows ].
Qed.

(** *** The run as a whole *)

(** The steps of a run that reached its end. *)
Lemma main_completed int_ E a w w' :
  main int_ E a w = (inl tt, w') ->
  exists ids w1 w2,
    pr_ids a = Some ids
    /\ setup int_ E a w = (inl tt, w1)
    /\ tag_all E a ids
         (log_add INFO ("Scanning PRs for project: " +:+ bb_project a +:+ ", repo: "
                        +:+ bb_repo_slug a +:+ ", total PRs: "
                        +:+ str_of_int (Z.of_nat (length ids))) w1) = (inl tt, w2)
    /\ push_all E a ids
         (call_add (Fetch "origin" "+refs/tags/*:refs/tags/*")
            (log_add INFO ("Fetching tags for " +:+ bb_repo_url a)
               (log_add INFO "Done tagging PRs" w2))) = (inl tt, w').
Proof.
  unfold main, the_pr_ids. intros H.
  apply bind_inl in H as ([] & w1 & Hsetup & H).
  destruct (pr_ids a) as [ids|]; [|done].
  apply bind_inl in H as (ids' & w1' & [= <- <-] & H).
  apply bind_inl in H as ([] & w1' & [= <-] & H).
  apply bind_inl in H as ([] & w2 & Htag & H).
  apply bind_inl in H as ([] & w3 & [= <-] & H).
  apply bind_inl in H as ([] & w4 & [= <-] & H).
  apply bind_inl in H as ([] & w5 & Hfetch & H).
  apply bind_inl in H as (ids' & w6 & [= <- <-] & H).
  exists ids, w1, w2. repeat split; try done.
  unfold perform in Hfetch.
  apply bind_inl in Hfetch as ([] & w6 & [= <-] & Hfetch).
  destruct (fetch_after_tagging E); [done|]. by injection Hfetch as <-.
Qed.


Lemma tag_refspec_text n :
  tag_refspec (tag_name_of n)
  = "refs/tags/dig-pr_" +:+ str_of_int n +:+ ":refs/tags/dig-pr_" +:+ str_of_int n.
Proof. reflexivity. Qed.

(** C3 (defect of the code). Identifiers 41 and 42, the lookup of 41 failing
    with status 500: the handler of [HTTPError] neither logs nor skips, the
    subscript on the identifier raises [TypeError], and the run ends there,
    PR 42 never looked up. *)
Theorem server_error_aborts_batch :
  let a := Scenario.transfer_args (Some [41; 42]) false "INFO" in
  let r := main Scenario.int_digits (Scenario.bitbucket true EmptyString false) a
             initial_world in
  r.1 = inr (Raise TypeError)
  /\ calls r.2 = [RepoInit "git-repo"; Fetch "origin" "+refs/tags/*:refs/tags/*"; ProjectList;
                  GetPullRequest "RTB" "server" 41].
Proof. vm_compute. split; reflexivity. Qed.



(** *** Identifiers on the standard input *)
Lemma read_pr_ids_parses int_ E :
  stdin_parses int_ (stdin_read E) ->
  exists ns, forall w, read_pr_ids int_ E w = (inl ns, w).
Proof.
  unfold read_pr_ids, stdin_parses.
  generalize (filter (fun piece => piece ≠ EmptyString) (split_nl (stdin_read E))).
  intros pieces. induction 1 as [|piece rest [n Hn] _ [ns IH]].
  - by exists [].
  - exists (n :: ns). intros w. simpl. rewrite Hn. unfold mbind, M_bind. by rewrite IH.
Qed.

Lemma prepare_stdin int_ E a input input' w :
  stdin_parses int_ input -> stdin_parses int_ input' ->
  prepare int_ (with_stdin E input) a w = prepare int_ (with_stdin E input') a w.
Proof.
  intros Hin Hin'.
  destruct (read_pr_ids_parses int_ (with_stdin E input) Hin) as [ns Hns].
  destruct (read_pr_ids_parses int_ (with_stdin E input') Hin') as [ns' Hns'].
  unfold prepare.
  change (stdin_isatty (with_stdin E input)) with (stdin_isatty E).
  change (stdin_isatty (with_stdin E input')) with (stdin_isatty E).
  change (open_repo (with_stdin E input) a) with (open_repo E a).
  change (open_repo (with_stdin E input') a) with (open_repo E a).
  change (check_bitbucket (with_stdin E input)) with (check_bitbucket E).
  change (check_bitbucket (with_stdin E input')) with (check_bitbucket E).
  destruct (stdin_isatty E); [done|].
  cbv [mbind M_bind negb logger_info logging_emit modify mret M_ret].
  destruct (bool_decide (pr_ids a = None) && false); [done|].
  by rewrite Hns, Hns'.
Qed.

Lemma setup_stdin int_ E a input input' w :
  stdin_parses int_ input -> stdin_parses int_ input' ->
  setup int_ (with_stdin E input) a w = setup int_ (with_stdin E input') a w.
Proof.
  intros Hin Hin'. unfold setup.
  change (GITHUB_TOKEN (with_stdin E input)) with (GITHUB_TOKEN E).
  change (GITHUB_TOKEN (with_stdin E input')) with (GITHUB_TOKEN E).
  change (BB_TOKEN (with_stdin E input)) with (BB_TOKEN E).
  change (BB_TOKEN (with_stdin E input')) with (BB_TOKEN E).
  cbv [mbind M_bind mret M_ret setLevel modify].
  destruct (bool_decide _ || bool_decide _); [done|]. cbv beta iota.
  destruct (level_of_name (log_level a)) as [l|]; [|done].
  by apply prepare_stdin.
Qed.

Lemma main_stdin int_ E a input input' w :
  stdin_parses int_ input -> stdin_parses int_ input' ->
  main int_ (with_stdin E input) a w = main int_ (with_stdin E input') a w.
Proof.
  intros Hin Hin'. unfold main.
  change (tag_all (with_stdin E input) a) with (tag_all E a).
  change (tag_all (with_stdin E input') a) with (tag_all E a).
  change (push_all (with_stdin E input) a) with (push_all E a).
  change (push_all (with_stdin E input') a) with (push_all E a).
  change (fetch_after_tagging (with_stdin E input)) with (fetch_after_tagging E).
  change (fetch_after_tagging (with_stdin E input')) with (fetch_after_tagging E).
  by apply bind_cong_l, setup_stdin.
Qed.

(** C10. The identifiers read from the standard input never reach the
    loops: two inputs that parse give the same run.  With [--pr-ids]
    absent, the run does nothing beyond the setup, issues no call for any
    work item, and ends with an uncaught [TypeError] as soon as the setup
    has passed (it ends like the setup when that fails). *)
Theorem stdin_ids_ignored int_ E a w :
  (forall input input',
     stdin_parses int_ input -> stdin_parses int_ input' ->
     main int_ (with_stdin E input) a w = main int_ (with_stdin E input') a w)
  /\ (pr_ids a = None ->
      (main int_ E a w).2 = (setup int_ E a w).2
      /\ ((setup int_ E a w).1 = inl tt -> (main int_ E a w).1 = inr (Raise TypeError))
      /\ ((setup int_ E a w).1 <> inl tt -> (main int_ E a w).1 = (setup int_ E a w).1)
      /\ (no_calls is_item_call w -> no_calls is_item_call (main int_ E a w).2)).
Proof.
  split; [intros input input'; apply main_stdin|].
  intros Hnone.
  assert (Hmain : main int_ E a w
                  = match setup int_ E a w with
                    | (inl _, w1) => (inr (Raise TypeError), w1)
                    | (inr sg, w1) => (inr sg, w1)
                    end).
  { unfold main, the_pr_ids. rewrite Hnone. unfold mbind at 1. unfold M_bind at 1.
    by destruct (setup int_ E a w) as [[[]|sg] w1]. }
  pose proof (setup_no_item_calls int_ E a w) as Hcalls.
  rewrite Hmain. destruct (setup int_ E a w) as [[[]|sg] w1]; simpl in *; done.
Qed.

Lemma stdin_ids_ignored_witness :
  let a := Scenario.transfer_args None false "INFO" in
  let E := Scenario.bitbucket false ("42" +:+ nl +:+ "43" +:+ nl) false in
  (pr_ids a = None /\ (setup Scenario.int_digits E a initial_world).1 = inl tt)
  /\ (main Scenario.int_digits E a initial_world).1 = inr (Raise TypeError).
Proof.
  split; [split; [reflexivity|vm_compute; reflexivity]|].
  apply (proj2 (stdin_ids_ignored Scenario.int_digits
                  (Scenario.bitbucket false ("42" +:+ nl +:+ "43" +:+ nl) false)
                  (Scenario.transfer_args None false "INFO") initial_world)).
  - reflexivity.
  - vm_compute. reflexivity.
Defined.

End TransferFacts.

(** ** Further facts about the two scripts *)

Lemma for_each_cons_step {S A} (body : A -> M S unit) x xs s :
  (body x s).1 = inl tt \/ (body x s).1 = inr Continue ->
  for_each body (x :: xs) s = for_each body xs (body x s).2.
Proof.
  intros H. simpl. destruct (body x s) as [[[]|[e| |c]] s']; simpl in H;
    by destruct H.
Qed.

(** *** The scanner *)
Module ScannerCoverage.
Import Scanner ScannerFacts Trace.

(** *** [write_to_file] *)

Lemma write_line a_file n w :
  write_to_file a_file (PyInt n) mode_a false true w
  = (inl tt, file_append a_file (line n) (file_open a_file mode_a w)).
Proof. reflexivity. Qed.

Lemma content_file_open file mode_ g w :
  mode_ = mode_a \/ g <> file -> content (file_open file mode_ w) g = content w g.
Proof.
  unfold content, file_open. cbn [files].
  intros [->|Hne].
  - destruct (files w !! file) eqn:Hf; [done|].
    destruct (decide (g = file)) as [->|Hne].
    + by rewrite lookup_insert_eq, Hf.
    + by rewrite lookup_insert_ne.
  - destruct mode_; [destruct (files w !! file)|]; by rewrite ?lookup_insert_ne.
Qed.

Lemma lookup_append_open file s w :
  files (file_append file s (file_open file mode_a w)) !! file
  = Some (content w file +:+ s).
Proof.
  unfold file_append. cbn [files]. rewrite lookup_insert_eq.
  fold (content (file_open file mode_a w) file).
  rewrite content_file_open by (by left). done.
Qed.

Lemma lookup_append_open_w file s w :
  files (file_append file s (file_open file mode_w w)) !! file = Some s.
Proof.
  unfold file_append, file_open. cbn [files]. by rewrite !lookup_insert_eq.
Qed.

Lemma lookup_append_open_ne file g s mode_ w :
  g <> file -> files (file_append file s (file_open file mode_ w)) !! g = files w !! g.
Proof.
  intros Hne. unfold file_append, file_open. cbn [files].
  rewrite lookup_insert_ne by done.
  destruct mode_; [destruct (files w !! file)|]; by rewrite ?lookup_insert_ne.
Qed.

(** X1. Two writes in a row, as the loop makes them, to a file that can be
    opened: the formatted lines are texts, so [f.write] accepts them, and the
    file holds its former text (none when it was missing) followed by the
    two lines in order, also when the two numbers are the same; nothing else
    changes. *)
Theorem write_to_file_appends file n m w :
  let r := (write_to_file file (PyInt n) mode_a false true;;
            write_to_file file (PyInt m) mode_a false true) w in
  r.1 = inl tt
  /\ files r.2 !! file = Some (content w file +:+ line n +:+ line m)
  /\ (forall g, g <> file -> files r.2 !! g = files w !! g)
  /\ dirs r.2 = dirs w /\ log r.2 = log w /\ calls r.2 = calls w.
Proof.
  intros r.
  assert (Hr : r = (inl tt, file_append file (line m) (file_open file mode_a
                             (file_append file (line n) (file_open file mode_a w)))))
    by reflexivity.
  rewrite Hr. cbn [fst snd]. repeat split.
  - rewrite lookup_append_open. unfold content at 1.
    rewrite lookup_append_open. cbn [default from_option id].
    by rewrite append_assoc.
  - intros g Hg. by rewrite !lookup_append_open_ne.
Qed.

Lemma write_to_file_appends_witness :
  "data/b.txt" <> "data/a.txt"
  /\ files ((write_to_file "data/a.txt" (PyInt 7) mode_a false true;;
             write_to_file "data/a.txt" (PyInt 7) mode_a false true) empty_world).2
      !! "data/b.txt" = None.
Proof.
  split; [discriminate|].
  destruct (write_to_file_appends "data/a.txt" 7 7 empty_world) as (_ & _ & H & _).
  rewrite H; [reflexivity|discriminate].
Defined.

(** X2. With mode ['w'] the file holds the last line only, whatever was in it
    and whatever was appended before. *)
Theorem write_to_file_truncates file n m w :
  let r := (write_to_file file (PyInt n) mode_a false true;;
            write_to_file file (PyInt m) mode_w false true) w in
  r.1 = inl tt
  /\ files r.2 !! file = Some (line m)
  /\ (forall g, g <> file -> files r.2 !! g = files w !! g).
Proof.
  intros r.
  assert (Hr : r = (inl tt, file_append file (line m) (file_open file mode_w
                             (file_append file (line n) (file_open file mode_a w)))))
    by reflexivity.
  rewrite Hr. cbn [fst snd]. repeat split.
  - by rewrite lookup_append_open_w.
  - intros g Hg. by rewrite !lookup_append_open_ne.
Qed.

Lemma write_to_file_truncates_witness :
  "data/b.txt" <> "data/a.txt"
  /\ files ((write_to_file "data/a.txt" (PyInt 7) mode_a false true;;
             write_to_file "data/a.txt" (PyInt 8) mode_w false true) empty_world).2
      !! "data/b.txt" = None.
Proof.
  split; [discriminate|].
  destruct (write_to_file_truncates "data/a.txt" 7 8 empty_world) as (_ & _ & H).
  rewrite H; [reflexivity|discriminate].
Defined.

(** X3. Without the newline the data goes to [f.write] as it is: a number
    raises [TypeError] once the file is open, so the file exists afterwards
    and, opened for appending, reads as before; a text is written as it
    is. *)
Theorem write_to_file_raw file w :
  (forall n mode_,
     write_to_file file (PyInt n) mode_ false false w
     = (inr (Raise TypeError), file_open file mode_ w))
  /\ (forall n,
        let w' := (write_to_file file (PyInt n) mode_a false false w).2 in
        is_Some (files w' !! file)
        /\ forall g, content w' g = content w g)
  /\ (forall s,
        let r := write_to_file file (PyStr s) mode_a false false w in
        r.1 = inl tt /\ files r.2 !! file = Some (content w file +:+ s)).
Proof.
  assert (H1 : forall n mode_,
             write_to_file file (PyInt n) mode_ false false w
             = (inr (Raise TypeError), file_open file mode_ w)) by done.
  split; [exact H1|]. split.
  - intros n w'. subst w'. rewrite H1. cbn [snd]. split.
    + unfold file_open. cbn [files].
      destruct (files w !! file) eqn:Hf; [by rewrite Hf|by rewrite lookup_insert_eq].
    + intros g. apply content_file_open. by left.
  - intros s r. subst r. split; [done|].
    change ((write_to_file file (PyStr s) mode_a false false w).2)
      with (file_append file s (file_open file mode_a w)).
    apply lookup_append_open.
Qed.

(** *** The checks of the arguments *)

Lemma check_args_outcome a w :
  ((check_args a w).1 = inl tt <-> selection_accepted a)
  /\ (~ selection_accepted a -> (check_args a w).1 = inr (SystemExit 1))
  /\ files (check_args a w).2 = files w
  /\ dirs (check_args a w).2 = dirs w
  /\ calls (check_args a w).2 = calls w.
Proof.
  unfold selection_accepted, check_args.
  cbv [mbind M_bind mret M_ret exit throw logger_error logging_emit modify].
  destruct (pr a) as [prs|], (start a) as [s|], (end_ a) as [e|];
    repeat case_bool_decide; try done;
    cbn [andb orb negb fst snd log_add files dirs calls];
    (split; [split; [try done; intros _|try done; intros [(? & ? & ?)|(? & [?|?])]; done]|]);
    try (split; [intros Hn; try done; exfalso; apply Hn|done]);
    first [ left; by repeat split
          | right; split; [done|]; (left; done) || (right; done)
          | idtac ].
Qed.

(** X4. The checks pass exactly for [--pr] alone or, without [--pr], for at
    least one end of the range; otherwise the script exits with code 1.
    In both cases only the log may have changed. *)
Theorem check_args_accepts_iff a w :
  ((check_args a w).1 = inl tt <-> selection_accepted a)
  /\ (~ selection_accepted a -> (check_args a w).1 = inr (SystemExit 1))
  /\ files (check_args a w).2 = files w
  /\ dirs (check_args a w).2 = dirs w
  /\ calls (check_args a w).2 = calls w.
Proof. apply check_args_outcome. Qed.

Lemma check_args_accepts_iff_witness :
  let a := Scenario.scan_args None None None false in
  ~ selection_accepted a /\ (check_args a empty_world).1 = inr (SystemExit 1).
Proof.
  assert (H : ~ selection_accepted (Scenario.scan_args None None None false))
    by (intros [(H & _)|(_ & [H|H])]; by apply H).
  split; [exact H|].
  by apply (proj1 (proj2 (check_args_accepts_iff
                            (Scenario.scan_args None None None false) empty_world))).
Defined.

(** *** Whole runs *)



(** With the token set and a complete selection, the run is the loop over
    the selected identifiers, between the first log lines and the last. *)
Lemma main_run t a R w prs :
  selected a = Some prs ->
  main (Some t) a R w
  = (inl tt, log_add INFO "Done!"
               (scan a R (issues_of prs) (at_loop_start a (length prs) w)).2).
Proof.
  unfold selected, main, check_args, make_issues, at_loop_start. intros Hsel.
  assert (Hlen : forall l : list Z, length (issues_of l) = length l)
    by (intros l; apply length_map).
  destruct (pr a) as [prs'|], (start a) as [s|], (end_ a) as [e|];
    try discriminate; injection Hsel as <-;
    repeat case_bool_decide; try done;
    cbv [mbind M_bind mret M_ret exit throw logger_error logger_info logging_emit
         modify makedirs andb orb negb];
    rewrite Hlen;
    destruct (dry_run a);
    match goal with
    | |- context [scan a R ?l ?W] =>
        pose proof (scan_completes a R l W) as Hc;
        destruct (scan a R l W) as [[[]|sg] w']; simpl in Hc; by try discriminate
    end.
Qed.






(** *** The log files after a run *)

Lemma lines_app xs ys : lines (xs ++ ys) = lines xs +:+ lines ys.
Proof.
  induction xs as [|x xs IH]; [done|]. cbn [app lines foldr].
  fold (lines (xs ++ ys)). fold (lines xs). by rewrite IH, append_assoc.
Qed.










(** *** What a run leaves alone *)

Lemma write_same_file path w0 file data mode_ dry newline :
  path <> file -> preserves (same_file path w0) (write_to_file file data mode_ dry newline).
Proof.
  intros Hne w Hw. unfold same_file in *. rewrite <- Hw. clear Hw.
  unfold write_to_file. destruct dry; [done|].
  destruct newline; [by apply lookup_append_open_ne|].
  destruct data; [|by apply lookup_append_open_ne].
  change (files (file_open file mode_ w) !! path = files w !! path).
  unfold file_open. cbn [files].
  destruct mode_; [destruct (files w !! file)|]; by rewrite ?lookup_insert_ne.
Qed.

Lemma modify_same_file path w0 (f : world -> world) :
  (forall w, files (f w) = files w) -> preserves (same_file path w0) (modify f).
Proof. intros Hf. apply preserves_modify. intros w Hw. unfold same_file. by rewrite Hf. Qed.

Ltac same_file_step :=
  first [ apply write_same_file; assumption
        | apply modify_same_file; reflexivity
        | preserves_step ].

(** X10. A run reads and writes no file but the four state files: any other
    path is at the end as it was, in every mode and however the run ends. *)
Theorem main_touches_only_state_files token a R w path :
  path ∉ state_files a -> files (main token a R w).2 !! path = files w !! path.
Proof.
  intros Hpath.
  assert (path <> pr_not_found_file a /\ path <> broken_prs_file a
          /\ path <> pr_ex_file a /\ path <> last_issue_file a)
    as (Hnf & Hbr & Hex & Hlast).
  { unfold state_files in Hpath. rewrite !not_elem_of_cons in Hpath. tauto. }
  change (same_file path w (main token a R w).2).
  assert (Hmain : preserves (same_file path w) (main token a R)); [|by apply Hmain].
  unfold main, check_args, make_issues, scan, loop_body, do_get_pull, do_requests_get,
    logger_info, logger_error, logger_exception, logging_emit, issue_call, makedirs.
  repeat same_file_step.
Qed.

Lemma main_touches_only_state_files_witness :
  let a := Scenario.scan_args (Some [18057; 5]) None None false in
  let w := file_append "data/notes.txt" "keep" empty_world in
  ("data/notes.txt" ∉ state_files a)
  /\ files (main (Some "token") a Scenario.github w).2 !! "data/notes.txt" = Some "keep".
Proof.
  assert (H : "data/notes.txt"
              ∉ state_files (Scenario.scan_args (Some [18057; 5]) None None false))
    by (unfold state_files; rewrite !not_elem_of_cons; repeat split;
        first [discriminate | apply not_elem_of_nil]).
  split; [exact H|].
  rewrite (main_touches_only_state_files (Some "token")
             (Scenario.scan_args (Some [18057; 5]) None None false) Scenario.github
             (file_append "data/notes.txt" "keep" empty_world) "data/notes.txt" H).
  reflexivity.
Defined.

(** X11. Outside dry runs the state directory is made before the loop,
    together with every parent of it, whatever the selection holds; no
    other directory is made, and none at all in a dry run. *)
Theorem main_makes_state_dir t a R w prs :
  selected a = Some prs ->
  dirs (main (Some t) a R w).2
  = if dry_run a then dirs w
    else dirs w ∪ list_to_set (makedirs_names (state_dir a)).
Proof.
  intros Hsel. rewrite (main_run t a R w prs Hsel). cbn [snd].
  change (dirs (log_add INFO "Done!" ?x)) with (dirs x).
  set (D := if dry_run a then dirs w
            else dirs w ∪ list_to_set (makedirs_names (state_dir a))).
  assert (H0 : dirs (at_loop_start a (length prs) w) = D)
    by (unfold at_loop_start, D; by destruct (dry_run a)).
  revert H0. generalize (at_loop_start a (length prs) w). intros w0 H0.
  apply (preserves_for_each (fun w' => dirs w' = D)); [|done].
  intros x. unfold loop_body, do_get_pull, do_requests_get, write_to_file, open_, f_write,
    logger_info, logger_exception, logging_emit, issue_call.
  repeat first [ apply preserves_modify; (intros ? ?; assumption) | preserves_step ].
Qed.

Lemma main_makes_state_dir_witness :
  let a := Scenario.in_state_dir "out/run1/data"
             (Scenario.scan_args None (Some 3) (Some 3) false) in
  selected a = Some []
  /\ dirs (main (Some "token") a Scenario.github empty_world).2
     = {[ "out" ]} ∪ {[ "out/run1" ]} ∪ {[ "out/run1/data" ]}.
Proof.
  split; [reflexivity|].
  rewrite (main_makes_state_dir "token"
             (Scenario.in_state_dir "out/run1/data"
                (Scenario.scan_args None (Some 3) (Some 3) false))
             Scenario.github empty_world [] eq_refl).
  reflexivity.
Defined.




(** X13. Nothing is deduplicated: the loop over a list followed by itself adds
    the records of the list twice. *)
Theorem scan_repeats a R prs w :
  let d := (scan a R (issues_of prs) empty_world).2 in
  (scan a R (issues_of (prs ++ prs)) w).2 = merge (merge w d) d.
Proof.
  intros d. subst d. unfold scan, issues_of.
  assert (Hu : forall l, uniform (for_each (loop_body a R) l))
    by (intros l; apply uniform_for_each, uniform_loop_body).
  rewrite map_app, for_each_app by (intros x; apply loop_body_goes_on).
  rewrite (Hu _ (for_each _ _ w).2). cbn [snd]. by rewrite (Hu _ w).
Qed.

(** *** Errors of configuration *)

(** X5. Without the token, or with a selection the checks refuse, the run
    exits with code 1 after logging an error: no remote call was made, no
    file and no directory touched. *)
Theorem scanner_config_error token a R w :
  token = None \/ ~ selection_accepted a ->
  let r := main token a R w in
  r.1 = inr (SystemExit 1)
  /\ calls r.2 = calls w /\ files r.2 = files w /\ dirs r.2 = dirs w
  /\ exists msg, log r.2 = log (log_add INFO "Loading environment variables" w)
                           ++ [(ERROR, msg)].
Proof.
  intros Hbad r. subst r. unfold main.
  destruct token as [t|].
  - destruct Hbad as [|Hsel]; [done|].
    destruct (check_args_outcome a (log_add INFO "Loading environment variables" w))
      as (_ & Hexit & Hf & Hd & Hc).
    specialize (Hexit Hsel).
    cbv [mbind M_bind logger_info logging_emit modify].
    assert (Hl : exists msg,
               log (check_args a (log_add INFO "Loading environment variables" w)).2
               = log (log_add INFO "Loading environment variables" w) ++ [(ERROR, msg)]).
    { clear -Hsel. unfold selection_accepted in Hsel. unfold check_args.
      cbv [mbind M_bind mret M_ret exit throw logger_error logging_emit modify].
      destruct (pr a) as [prs|], (start a) as [s|], (end_ a) as [e|];
        repeat case_bool_decide; try done;
        cbn [andb orb negb fst snd]; try (by eexists);
        exfalso; apply Hsel; first [ left; by repeat split
                                   | right; split; [done|]; (left; done) || (right; done) ]. }
    destruct (check_args a (log_add INFO "Loading environment variables" w))
      as [[[]|sg] w1]; simpl in *; [done|]. by injection Hexit as ->.
  - cbv [mbind M_bind logger_info logger_error logging_emit modify exit throw fst snd].
    repeat split. by eexists.
Qed.

Lemma scanner_config_error_witness :
  let a := Scenario.scan_args (Some [1]) (Some 1) (Some 3) false in
  ~ selection_accepted a
  /\ (main (Some "token") a Scenario.github empty_world).1 = inr (SystemExit 1).
Proof.
  assert (H : ~ selection_accepted (Scenario.scan_args (Some [1]) (Some 1) (Some 3) false))
    by (intros [(_ & H & _)|(H & _)]; discriminate H).
  split; [exact H|].
  apply (scanner_config_error (Some "token")
           (Scenario.scan_args (Some [1]) (Some 1) (Some 3) false)
           Scenario.github empty_world (or_intror H)).
Defined.

End ScannerCoverage.

(** *** The transfer utility *)
Module TransferCoverage.
Import Transfer TransferFacts Trace.

(** *** Errors of configuration *)

Lemma calls_same_log cs lvl msg w : calls w = cs -> calls (log_add lvl msg w) = cs.
Proof. done. Qed.

Lemma calls_same_remotes cs rs w :
  calls w = cs -> calls (World (root_level w) (log w) (calls w) rs) = cs.
Proof. done. Qed.

(** X14. A missing token, an unknown log level, or neither [--pr-ids] nor a
    piped standard input: the run exits with code 1 and no call was made,
    to the repository or to a service. *)
Theorem transfer_config_error int_ E a w :
  config_error E a ->
  (main int_ E a w).1 = inr (SystemExit 1) /\ calls (main int_ E a w).2 = calls w.
Proof.
  unfold config_error, main, setup, prepare. intros Hbad.
  cbv [mbind M_bind mret M_ret exit throw logger_error logging_emit modify setLevel].
  destruct (bool_decide (GITHUB_TOKEN E = None) || bool_decide (BB_TOKEN E = None)) eqn:Htok;
    [done|].
  apply orb_false_iff in Htok as [H1%bool_decide_eq_false H2%bool_decide_eq_false].
  destruct Hbad as [[?|?]|[Hl|[Hids Htty]]]; try done.
  - by rewrite Hl.
  - destruct (level_of_name (log_level a)); [|done].
    by rewrite Htty, bool_decide_eq_true_2.
Qed.

Lemma transfer_config_error_witness :
  let a := Scenario.transfer_args (Some [42]) false "VERBOSE" in
  let E := Scenario.bitbucket true EmptyString false in
  config_error E a
  /\ (main Scenario.int_digits E a initial_world).1 = inr (SystemExit 1).
Proof.
  assert (H : config_error (Scenario.bitbucket true EmptyString false)
                (Scenario.transfer_args (Some [42]) false "VERBOSE"))
    by (right; left; reflexivity).
  split; [exact H|].
  apply (transfer_config_error Scenario.int_digits _ _ initial_world H).
Defined.

(** *** The standard input *)

Lemma int_all_fails int_ pieces w :
  ~ Forall (fun piece => is_Some (int_ piece)) pieces ->
  int_all int_ pieces w = (inr (Raise ValueError), w).
Proof.
  induction pieces as [|piece rest IH]; intros Hbad.
  - by destruct Hbad.
  - simpl. destruct (int_ piece) as [n|] eqn:Hn; [|done].
    unfold mbind, M_bind. rewrite IH; [done|].
    intros Hrest. apply Hbad. constructor; [by rewrite Hn|done].
Qed.

(** X15. When the standard input is piped it is read and parsed, with or
    without [--pr-ids]: a non-empty line that is not an integer ends the
    run with an uncaught [ValueError] before any call is made. *)
Theorem stdin_garbage_raises int_ E a w :
  GITHUB_TOKEN E <> None -> BB_TOKEN E <> None ->
  level_of_name (log_level a) <> None ->
  stdin_isatty E = false -> ~ stdin_parses int_ (stdin_read E) ->
  (main int_ E a w).1 = inr (Raise ValueError) /\ calls (main int_ E a w).2 = calls w.
Proof.
  intros Hgh Hbb Hl Htty Hbad. unfold main, setup, prepare, read_pr_ids.
  cbv [mbind M_bind mret M_ret exit throw logger_error logger_info logging_emit modify
       setLevel].
  rewrite !bool_decide_eq_false_2 by done. cbn [orb].
  destruct (level_of_name (log_level a)) as [l|]; [|done].
  rewrite Htty, andb_false_r. cbn [negb].
  by rewrite int_all_fails.
Qed.

Lemma stdin_garbage_raises_witness :
  let a := Scenario.transfer_args (Some [42]) false "INFO" in
  let E := Scenario.bitbucket false ("42" +:+ nl +:+ "4x" +:+ nl) false in
  (stdin_isatty E = false /\ ~ stdin_parses Scenario.int_digits (stdin_read E))
  /\ (main Scenario.int_digits E a initial_world).1 = inr (Raise ValueError).
Proof.
  assert (H : ~ stdin_parses Scenario.int_digits ("42" +:+ nl +:+ "4x" +:+ nl)).
  { unfold stdin_parses. intros Hall.
    assert (Hin : "4x" ∈ filter (fun piece => piece ≠ EmptyString)
                          (split_nl ("42" +:+ nl +:+ "4x" +:+ nl)))
      by (vm_compute; right; left).
    rewrite Forall_forall in Hall. destruct (Hall _ Hin) as [n Hn]. discriminate Hn. }
  split; [by split|].
  apply (stdin_garbage_raises Scenario.int_digits
           (Scenario.bitbucket false ("42" +:+ nl +:+ "4x" +:+ nl) false)
           (Scenario.transfer_args (Some [42]) false "INFO") initial_world);
    try done; try discriminate.
Defined.

(** *** The [github] remote *)

Lemma check_github_remote_cases a w :
  let r := check_github_remote a w in
  (r.1 = inl tt -> github_url r.2 = Some (gh_repo_url a))
  /\ ("github" ∉ (remotes w).*1 ->
      r.1 = inl tt
      /\ calls r.2 = calls w ++ [CreateRemote "github" (gh_repo_url a)])
  /\ (forall url, github_url w = Some url ->
        calls r.2 = calls w /\ remotes r.2 = remotes w
        /\ r.1 = (if bool_decide (url = gh_repo_url a) then inl tt
                  else inr (SystemExit 1))).
Proof.
  intros r. subst r. unfold github_url. destruct w as [lv lg cs rs].
  unfold check_github_remote.
  cbv [mbind M_bind mret M_ret gets modify set_remotes issue_call logger_info logger_error
       logging_emit exit throw raise fst snd log_add call_add remotes calls log root_level].
  destruct (decide ("github" ∈ rs.*1)) as [Hin|Hout].
  - rewrite (bool_decide_eq_true_2 _ Hin).
    destruct (list_to_map rs !! "github") as [url|] eqn:Hurl.
    2:{ by apply not_elem_of_list_to_map in Hurl. }
    destruct (decide (url = gh_repo_url a)) as [->|Hne].
    + rewrite bool_decide_eq_true_2 by done. cbn [fst snd].
      split; [done|]. split; [done|].
      intros url' [= <-]. by rewrite bool_decide_eq_true_2.
    + rewrite (bool_decide_eq_false_2 _ Hne). cbn [fst snd].
      split; [done|]. split; [done|].
      intros url' [= <-]. by rewrite (bool_decide_eq_false_2 _ Hne).
  - rewrite (bool_decide_eq_false_2 _ Hout).
    assert (Hnew : (list_to_map (rs ++ [("github", gh_repo_url a)]) : gmap string string)
                   !! "github" = Some (gh_repo_url a)).
    { rewrite list_to_map_snoc by done. apply lookup_insert_eq. }
    rewrite Hnew, bool_decide_eq_true_2 by done. cbn [fst snd].
    split; [done|]. split; [done|].
    intros url Hurl. apply not_elem_of_list_to_map in Hout. congruence.
Qed.

(** X17. The check of the remote either passes or exits with code 1.  When it
    passes the [github] remote has the expected URL.  A missing remote is
    created with that URL (and the check passes); an existing one is left
    as it is, and a different URL is fatal. *)
Theorem github_remote_checked a w :
  let r := check_github_remote a w in
  (r.1 = inl tt -> github_url r.2 = Some (gh_repo_url a))
  /\ ("github" ∉ (remotes w).*1 ->
      r.1 = inl tt
      /\ calls r.2 = calls w ++ [CreateRemote "github" (gh_repo_url a)])
  /\ (forall url, github_url w = Some url ->
        calls r.2 = calls w /\ remotes r.2 = remotes w
        /\ r.1 = (if bool_decide (url = gh_repo_url a) then inl tt
                  else inr (SystemExit 1))).
Proof. apply check_github_remote_cases. Qed.

Lemma github_remote_checked_witness :
  let w := World INFO [] [] [("origin", "https://code.devrtb.com/scm/rtb/server.git")] in
  let a := Scenario.transfer_args (Some [42]) false "INFO" in
  ("github" ∉ (remotes w).*1)
  /\ github_url (check_github_remote a w).2 = Some "https://github.com/miroapp-dev/server".
Proof.
  assert (H : "github" ∉ [("origin", "https://code.devrtb.com/scm/rtb/server.git")].*1).
  { cbn. rewrite not_elem_of_cons. split; [discriminate|apply not_elem_of_nil]. }
  split; [exact H|].
  destruct (github_remote_checked (Scenario.transfer_args (Some [42]) false "INFO")
              (World INFO [] [] [("origin", "https://code.devrtb.com/scm/rtb/server.git")]))
    as (H1 & H2 & _).
  apply H1. by destruct (H2 H).
Defined.

Lemma remotes_same_log rs lvl msg w : remotes w = rs -> remotes (log_add lvl msg w) = rs.
Proof. done. Qed.

Lemma check_bitbucket_remotes E w : remotes (check_bitbucket E w).2 = remotes w.
Proof.
  assert (H : preserves (fun w' => remotes w' = remotes w) (check_bitbucket E));
    [|by apply H].
  unfold check_bitbucket, logger_debug.
  repeat transfer_step (remotes_same_log (remotes w)) (remotes_same_log (remotes w))
    ltac:(intros; assumption).
Qed.

(** X18. A setup that passed leaves the [github] remote of the mirror at the
    expected URL: the loops never push to another destination. *)
Theorem setup_github_remote int_ E a w w1 :
  setup int_ E a w = (inl tt, w1) -> github_url w1 = Some (gh_repo_url a).
Proof.
  unfold setup. intros H.
  apply bind_inl in H as ([] & w0 & _ & H).
  destruct (level_of_name (log_level a)) as [l|];
    [|by cbv [mbind M_bind logger_error logging_emit modify exit throw] in H].
  apply bind_inl in H as ([] & w2 & _ & H). unfold prepare in H.
  apply bind_inl in H as ([] & w3 & _ & H).
  apply bind_inl in H as ([] & w4 & _ & H).
  apply bind_inl in H as ([] & w5 & _ & H).
  apply bind_inl in H as ([] & w6 & _ & H).
  apply bind_inl in H as ([] & w7 & Hcheck & H).
  destruct (check_github_remote_cases a w6) as (Hurl & _).
  rewrite Hcheck in Hurl. specialize (Hurl eq_refl). cbn [snd] in Hurl.
  unfold github_url in *.
  replace (remotes w1) with (remotes w7); [done|].
  rewrite <- (check_bitbucket_remotes E w7). by rewrite H.
Qed.

Lemma setup_github_remote_witness :
  let a := Scenario.transfer_args (Some [42]) false "INFO" in
  let E := Scenario.bitbucket true EmptyString false in
  (setup Scenario.int_digits E a initial_world).1 = inl tt
  /\ github_url (setup Scenario.int_digits E a initial_world).2
     = Some "https://github.com/miroapp-dev/server".
Proof.
  split; [vm_compute; reflexivity|].
  apply (setup_github_remote Scenario.int_digits
           (Scenario.bitbucket true EmptyString false)
           (Scenario.transfer_args (Some [42]) false "INFO") initial_world).
  vm_compute. reflexivity.
Defined.

(** *** The first loop *)

(** An iteration ends the run exactly when the lookup failed with an HTTP
    status other than 404 (then with [TypeError]); in every other case the
    loop goes on. *)
Lemma tag_body_outcome E a n w :
  (tag_body E a n w).1
  = (if bad_lookup E n then inr (Raise TypeError) else (tag_body E a n w).1)
  /\ (bad_lookup E n = false ->
      (tag_body E a n w).1 = inl tt \/ (tag_body E a n w).1 = inr Continue).
Proof.
  unfold bad_lookup.
  destruct (get_pull_request E n) as [d|e] eqn:Hd.
  - split; [done|]. intros _.
    destruct (latestCommit d) as [c|] eqn:Hc.
    + rewrite (tag_body_found E a n d c w Hd Hc). cbv zeta.
      destruct (dry_run a); [by left|].
      destruct (set_tag E _ c) as [[]|]; auto. destruct (_ =? 409); auto.
    + destruct w as [lv lg cs rs]. run_transfer. rewrite Hd. cbv beta iota.
      rewrite Hc. by right.
  - destruct e as [| | |sc| | |msg];
      try (split; [done|]; intros _; destruct w as [lv lg cs rs]; run_transfer;
           rewrite Hd; by right).
    destruct (decide (sc = 404)) as [->|Hne].
    + split; [done|]. intros _. destruct w as [lv lg cs rs]. run_transfer.
      rewrite Hd. by right.
    + assert (Hb : negb (sc =? 404) = true) by (apply negb_true_iff; lia).
      rewrite Hb. split; [|done]. by rewrite (tag_body_http_error E a n sc w Hd Hne).
Qed.

Lemma tag_all_outcome E a ids w :
  ((tag_all E a ids w).1 = inl tt <-> forall n, n ∈ ids -> bad_lookup E n = false)
  /\ ((tag_all E a ids w).1 = inl tt \/ (tag_all E a ids w).1 = inr (Raise TypeError)).
Proof.
  unfold tag_all. revert w. induction ids as [|n ids IH]; intros w.
  - split; [|by left]. split; [|done]. intros _ n Hn. by apply elem_of_nil in Hn.
  - destruct (tag_body_outcome E a n w) as [Hbad Hgood]. cbn [for_each].
    destruct (bad_lookup E n) eqn:Hb.
    + destruct (tag_body E a n w) as [r w1]. cbn [fst] in Hbad. subst r.
      split; [|by right]. split; [done|].
      intros Hall. specialize (Hall n (list_elem_of_here _ _)). congruence.
    + specialize (Hgood eq_refl). destruct (IH (tag_body E a n w).2) as [IH1 IH2].
      pose proof (for_each_cons_step (tag_body E a) n ids w Hgood) as Hstep.
      cbn [for_each] in Hstep. rewrite Hstep. split; [|done].
      rewrite IH1. split.
      * intros Hall m [->|Hm]%elem_of_cons; auto.
      * intros Hall m Hm. apply Hall. by right.
Qed.

(** X20. The first loop runs to its end exactly when no lookup fails with an
    HTTP status other than 404; otherwise the run ends with [TypeError]
    at the first such identifier. *)
Theorem tag_all_completes_iff E a ids w :
  ((tag_all E a ids w).1 = inl tt <-> forall n, n ∈ ids -> bad_lookup E n = false)
  /\ ((tag_all E a ids w).1 = inl tt \/ (tag_all E a ids w).1 = inr (Raise TypeError)).
Proof. apply tag_all_outcome. Qed.

Lemma tag_all_completes_iff_witness :
  let a := Scenario.transfer_args (Some [7; 42]) false "INFO" in
  let E := Scenario.bitbucket true EmptyString false in
  (forall n, n ∈ [7; 42] -> bad_lookup E n = false)
  /\ (tag_all E a [7; 42] initial_world).1 = inl tt.
Proof.
  assert (H : forall n, n ∈ [7; 42]
                -> bad_lookup (Scenario.bitbucket true EmptyString false) n = false).
  { intros n Hn. rewrite !elem_of_cons in Hn.
    destruct Hn as [->|[->|Hn]]; [reflexivity..|by apply elem_of_nil in Hn]. }
  split; [exact H|].
  by apply (proj1 (tag_all_completes_iff (Scenario.bitbucket true EmptyString false)
                     (Scenario.transfer_args (Some [7; 42]) false "INFO")
                     [7; 42] initial_world)).
Defined.

Lemma tag_body_calls E a n w :
  calls (tag_body E a n w).2 = calls w ++ tag_calls E a n.
Proof.
  unfold tag_calls.
  destruct (get_pull_request E n) as [d|e] eqn:Hd.
  - destruct (latestCommit d) as [c|] eqn:Hc.
    + rewrite (tag_body_found E a n d c w Hd Hc). cbv zeta. unfold looked_up.
      destruct (dry_run a); [done|].
      destruct (set_tag E _ c) as [[]|]; try destruct (_ =? 409);
        cbn [snd calls log_add call_add]; by rewrite <- app_assoc.
    + destruct w as [lv lg cs rs]. run_transfer. rewrite Hd. cbv beta iota. by rewrite Hc.
  - destruct w as [lv lg cs rs]. run_transfer. rewrite Hd.
    destruct e as [| | |sc| | |msg]; try done. by destruct (sc =? 404).
Qed.

Lemma tag_all_calls E a ids w :
  (forall n, n ∈ ids -> bad_lookup E n = false) ->
  calls (tag_all E a ids w).2 = calls w ++ flat_map (tag_calls E a) ids.
Proof.
  unfold tag_all. revert w. induction ids as [|n ids IH]; intros w Hall.
  { by rewrite app_nil_r. }
  destruct (tag_body_outcome E a n w) as [_ Hgood].
  specialize (Hgood (Hall n (list_elem_of_here _ _))).
  rewrite for_each_cons_step by done.
  rewrite IH by (intros m Hm; apply Hall; by right).
  rewrite tag_body_calls. cbn [flat_map]. by rewrite <- app_assoc.
Qed.

(** X21. A failed creation of the tag never ends the run.  An [HTTPError] is
    dropped whatever its status: but for the record of a 409 the iteration
    ends as if the tag had been created, nothing being logged for another
    status.  Any other exception is logged as an error and the loop goes on
    with the next identifier. *)
Theorem set_tag_failures E a n d c w e :
  dry_run a = false -> get_pull_request E n = inl d -> latestCommit d = Some c ->
  set_tag E (tag_name_of (id d)) c = Some e ->
  let w2 := call_add (SetTag (bb_project a) (bb_repo_slug a) (tag_name_of (id d)) c)
              (looked_up a n d c w) in
  tag_body E a n w =
  match e with
  | HTTPError status_code =>
      (inl tt,
       if status_code =? 409
       then log_add INFO ("Tag " +:+ tag_name_of (id d) +:+ " already exists") w2
       else w2)
  | _ => (inr Continue, log_add ERROR ("Bitbucket API error: " +:+ str_of_exn e) w2)
  end.
Proof.
  intros Hdry Hd Hc Hset w2. subst w2.
  rewrite (tag_body_found E a n d c w Hd Hc). cbv zeta. rewrite Hdry, Hset.
  destruct e; try done. by destruct (_ =? 409).
Qed.

Lemma set_tag_failures_witness :
  let a := Scenario.transfer_args (Some [42]) false "INFO" in
  let E := Scenario.bitbucket true EmptyString true in
  (dry_run a = false /\ set_tag E (tag_name_of 42) "abc123" = Some (HTTPError 409))
  /\ (tag_body E a 42 initial_world).1 = inl tt.
Proof.
  split; [by split|].
  by rewrite (set_tag_failures (Scenario.bitbucket true EmptyString true)
                (Scenario.transfer_args (Some [42]) false "INFO")
                42 Scenario.pr42 "abc123" initial_world (HTTPError 409)
                eq_refl eq_refl eq_refl eq_refl).
Defined.

(** *** The second loop and the run as a whole *)

Lemma push_all_calls_any E a ids w :
  (push_all E a ids w).1 = inl tt
  /\ calls (push_all E a ids w).2
     = calls w ++ (if dry_run a then []
                   else map (fun n => Push "github" (tag_refspec (tag_name_of n))) ids).
Proof.
  destruct (dry_run a) eqn:Hdry; [|by apply push_all_calls].
  unfold push_all. revert w. induction ids as [|n ids IH]; intros w.
  { by rewrite app_nil_r. }
  assert (Hb : push_body E a n w
               = (inl tt, log_add INFO ("Pushing tag " +:+ tag_name_of n +:+ " to GitHub") w)).
  { destruct w as [lv lg cs rs]. run_transfer. by rewrite Hdry. }
  rewrite for_each_cons_step by (rewrite Hb; by left).
  rewrite Hb. cbn [snd].
  by destruct (IH (log_add INFO ("Pushing tag " +:+ tag_name_of n +:+ " to GitHub") w))
    as [-> ->].
Qed.

(** X22. The calls of a run that reached its end, after those of the setup:
    for every identifier in order one lookup, followed outside dry runs by
    the creation of the tag when the PR is found with a head commit; then
    one fetch; then, outside dry runs, one push per identifier in order.
    No tag is pushed before all are created and fetched. *)
Theorem run_trace int_ E a w w' ids :
  main int_ E a w = (inl tt, w') -> pr_ids a = Some ids ->
  exists w1,
    setup int_ E a w = (inl tt, w1)
    /\ calls w' = calls w1 ++ flat_map (tag_calls E a) ids
                  ++ Fetch "origin" "+refs/tags/*:refs/tags/*"
                  :: (if dry_run a then []
                      else map (fun n => Push "github" (tag_refspec (tag_name_of n))) ids).
Proof.
  intros Hmain Hids.
  apply main_completed in Hmain as (ids' & w1 & w2 & Hids' & Hsetup & Htag & Hpush).
  rewrite Hids in Hids'. injection Hids' as <-.
  exists w1. split; [done|].
  destruct (push_all_calls_any E a ids
              (call_add (Fetch "origin" "+refs/tags/*:refs/tags/*")
                 (log_add INFO ("Fetching tags for " +:+ bb_repo_url a)
                    (log_add INFO "Done tagging PRs" w2)))) as [_ Hc].
  rewrite Hpush in Hc. cbn [snd] in Hc. rewrite Hc. cbn [calls call_add log_add].
  match type of Htag with
  | tag_all _ _ _ ?W0 = _ =>
      assert (Hall : forall n, n ∈ ids -> bad_lookup E n = false)
        by (apply (proj1 (tag_all_outcome E a ids W0)); by rewrite Htag);
      pose proof (tag_all_calls E a ids W0 Hall) as Hc2
  end.
  rewrite Htag in Hc2.
  cbn [snd calls log_add] in Hc2. rewrite Hc2. by rewrite <- !app_assoc.
Qed.

Lemma run_trace_witness :
  let a := Scenario.transfer_args (Some [7; 42]) false "INFO" in
  let E := Scenario.bitbucket true EmptyString false in
  let r := main Scenario.int_digits E a initial_world in
  r.1 = inl tt
  /\ exists w1,
       setup Scenario.int_digits E a initial_world = (inl tt, w1)
       /\ calls r.2
          = calls w1 ++ [GetPullRequest "RTB" "server" 7; GetPullRequest "RTB" "server" 42;
                         SetTag "RTB" "server" "dig-pr_42" "abc123";
                         Fetch "origin" "+refs/tags/*:refs/tags/*";
                         Push "github" "refs/tags/dig-pr_7:refs/tags/dig-pr_7";
                         Push "github" "refs/tags/dig-pr_42:refs/tags/dig-pr_42"].
Proof.
  intros a E r.
  assert (Hr : main Scenario.int_digits E a initial_world = (inl tt, r.2))
    by (vm_compute; reflexivity).
  split; [vm_compute; reflexivity|].
  destruct (run_trace Scenario.int_digits E a initial_world r.2 [7; 42] Hr eq_refl)
    as (w1 & Hsetup & Hcalls).
  exists w1. split; [exact Hsetup|]. rewrite Hcalls. reflexivity.
Defined.

Lemma main_completed_fetch int_ E a w w' :
  main int_ E a w = (inl tt, w') -> fetch_after_tagging E = None.
Proof.
  unfold main, the_pr_ids. intros H.
  apply bind_inl in H as ([] & w1 & _ & H).
  destruct (pr_ids a) as [ids|]; [|done].
  apply bind_inl in H as (ids' & w1' & _ & H).
  apply bind_inl in H as ([] & w2 & _ & H).
  apply bind_inl in H as ([] & w3 & _ & H).
  apply bind_inl in H as ([] & w4 & _ & H).
  apply bind_inl in H as ([] & w5 & _ & H).
  apply bind_inl in H as ([] & w6 & Hfetch & _).
  unfold perform in Hfetch.
  apply bind_inl in Hfetch as ([] & w7 & _ & Hfetch).
  by destruct (fetch_after_tagging E).
Qed.

Lemma perform_fails_bind {A} P c e (k : unit -> M world A) :
  (forall w, P w -> P (call_add c w)) -> preserves P (perform c (Some e) ≫= k).
Proof. intros Hc w Hw. by apply Hc. Qed.

Lemma no_push_log lvl msg w : no_calls is_push w -> no_calls is_push (log_add lvl msg w).
Proof. done. Qed.

Lemma no_push_remotes rs w :
  no_calls is_push w -> no_calls is_push (World (root_level w) (log w) (calls w) rs).
Proof. done. Qed.

(** X23. When the fetch between the two loops fails, the run ends there: it
    does not reach its end and pushes no tag, whatever was tagged. *)
Theorem fetch_failure_stops_before_push int_ E a w e :
  fetch_after_tagging E = Some e ->
  (main int_ E a w).1 <> inl tt
  /\ (no_calls is_push w -> no_calls is_push (main int_ E a w).2).
Proof.
  intros Hfetch. split.
  - intros Hdone.
    assert (Hmain : main int_ E a w = (inl tt, (main int_ E a w).2))
      by (destruct (main int_ E a w) as [r w']; simpl in *; by subst).
    apply main_completed_fetch in Hmain. congruence.
  - assert (Hmain : preserves (no_calls is_push) (main int_ E a)); [|by apply Hmain].
    unfold main. rewrite Hfetch.
    unfold setup, prepare, open_repo, check_github_remote, check_bitbucket, read_pr_ids,
      setLevel, the_pr_ids, tag_all, tag_body, pr_latestCommit, pr_id.
    repeat first
      [ apply perform_fails_bind; intros; by apply no_calls_add
      | transfer_step (no_push_log) (no_push_remotes)
          ltac:(first [ intros; apply no_calls_add; [reflexivity|assumption]
                      | intros; assumption ]) ].
Qed.

Lemma fetch_failure_stops_before_push_witness :
  let a := Scenario.transfer_args (Some [42]) false "INFO" in
  let E := {| GITHUB_TOKEN := Some "gh"; BB_TOKEN := Some "bb"; BB_USER := Some "user";
              stdin_isatty := true; stdin_read := EmptyString;
              path_exists := fun _ => false; clone_from := None; repo_remotes := [];
              fetch_on_open := None; fetch_after_tagging := Some GitCommandError;
              project_list := inl [];
              get_pull_request := fun _ => inl Scenario.pr42;
              set_tag := fun _ _ => None; push := fun _ => None |} in
  fetch_after_tagging E = Some GitCommandError
  /\ (main Scenario.int_digits E a initial_world).1 <> inl tt.
Proof.
  intros a E. split; [reflexivity|].
  apply (fetch_failure_stops_before_push Scenario.int_digits E a initial_world
           GitCommandError eq_refl).
Defined.

(** *** Reading back a log file *)

Lemma split_nl_line s rest :
  no_newline s -> split_nl (s +:+ nl +:+ rest) = s :: split_nl rest.
Proof.
  induction s as [|c s IH]; intros Hs.
  - done.
  - destruct Hs as [Hc Hs].
    change (String c s +:+ nl +:+ rest) with (String c (s +:+ nl +:+ rest)).
    cbn [split_nl]. rewrite (bool_decide_eq_false_2 _ Hc). by rewrite IH.
Qed.

Lemma string_of_uint_no_newline d : no_newline (NilEmpty.string_of_uint d).
Proof. induction d; simpl; by try split. Qed.

Lemma str_of_int_line n : no_newline (str_of_int n) /\ str_of_int n <> EmptyString.
Proof.
  unfold str_of_int, NilZero.string_of_int, NilZero.string_of_uint.
  destruct (Z.to_int n) as [d|d]; destruct d; simpl;
    repeat split; try done; apply string_of_uint_no_newline.
Qed.

Lemma split_nl_lines ns : split_nl (lines ns) = map str_of_int ns ++ [EmptyString].
Proof.
  induction ns as [|n ns IH]; [done|].
  cbn [lines foldr map app]. fold (lines ns). unfold line.
  rewrite append_assoc, split_nl_line by apply str_of_int_line. by rewrite IH.
Qed.

(** X16. A log file written by the scanner, one number per line, is read back
    from the standard input as the list of its numbers, in order, by any
    [int] that reads back the decimal text of these numbers. *)
Theorem log_file_reads_back int_ E ns w :
  stdin_read E = lines ns ->
  (forall n, n ∈ ns -> int_ (str_of_int n) = Some n) ->
  read_pr_ids int_ E w = (inl ns, w).
Proof.
  intros Hin Hint. unfold read_pr_ids. rewrite Hin, split_nl_lines.
  rewrite filter_app, filter_cons_False, filter_nil, app_nil_r by (intros H; by apply H).
  assert (Hkeep : filter (fun piece => piece ≠ EmptyString) (map str_of_int ns)
                  = map str_of_int ns).
  { clear. induction ns as [|n ns IH]; [done|]. cbn [map].
    rewrite filter_cons_True by apply str_of_int_line. by rewrite IH. }
  rewrite Hkeep. clear Hkeep Hin. revert w.
  induction ns as [|n ns IH]; intros w; [done|].
  cbn [map int_all]. rewrite (Hint n (list_elem_of_here _ _)).
  unfold mbind, M_bind. rewrite IH; [done|].
  intros m Hm. apply Hint. by right.
Qed.

Lemma log_file_reads_back_witness :
  let E := Scenario.bitbucket false (lines [18057; 42]) false in
  (stdin_read E = lines [18057; 42]
   /\ forall n, n ∈ [18057; 42] -> Scenario.int_digits (str_of_int n) = Some n)
  /\ read_pr_ids Scenario.int_digits E initial_world = (inl [18057; 42], initial_world).
Proof.
  assert (H : forall n, n ∈ [18057; 42] -> Scenario.int_digits (str_of_int n) = Some n).
  { intros n Hn. rewrite !elem_of_cons in Hn.
    destruct Hn as [->|[->|Hn]]; [reflexivity..|by apply elem_of_nil in Hn]. }
  split; [by split|].
  by apply (log_file_reads_back Scenario.int_digits
              (Scenario.bitbucket false (lines [18057; 42]) false) [18057; 42]
              initial_world eq_refl).
Defined.

(** *** The calls of the setup *)

Lemma debug_all_goes_on projects w :
  (for_each logger_debug projects w).1 = inl tt
  /\ calls (for_each logger_debug projects w).2 = calls w
  /\ remotes (for_each logger_debug projects w).2 = remotes w.
Proof.
  revert w. induction projects as [|p projects IH]; intros w; [done|].
  rewrite for_each_cons_step by (by left).
  destruct (IH (logger_debug p w).2) as (H1 & H2 & H3). by rewrite H1, H2, H3.
Qed.

(** The check of the Bitbucket API makes one call; whatever exception it
    meets, the run exits with code 1 instead of raising. *)
Lemma check_bitbucket_outcome E w :
  (check_bitbucket E w).1
  = (match project_list E with inl _ => inl tt | inr _ => inr (SystemExit 1) end)
  /\ calls (check_bitbucket E w).2 = calls w ++ [ProjectList].
Proof.
  unfold check_bitbucket.
  cbv [mbind M_bind try_except logger_info logger_exception logging_emit issue_call modify
       any_Exception exit throw raise].
  destruct (project_list E) as [projects|e]; [|done].
  destruct (debug_all_goes_on projects
              (call_add ProjectList (log_add INFO "Checking Bitbucket API" w)))
    as (H1 & H2 & _).
  destruct (for_each logger_debug projects _) as [r w']. cbn [fst snd] in *.
  by subst r.
Qed.

Lemma open_repo_ok E a w w' :
  open_repo E a w = (inl tt, w') ->
  calls w' = calls w ++ (if path_exists E (repo_dir a)
                         then [RepoInit (repo_dir a);
                               Fetch "origin" "+refs/tags/*:refs/tags/*"]
                         else [CloneFrom (bb_repo_url a) (repo_dir a)])
  /\ remotes w' = (if path_exists E (repo_dir a) then repo_remotes E
                   else [("origin", bb_repo_url a)]).
Proof.
  unfold open_repo. destruct w as [lv lg cs rs].
  cbv [mbind M_bind mret M_ret perform gets modify set_remotes issue_call logger_info
       logging_emit raise throw log_add call_add remotes calls log root_level].
  destruct (path_exists E (repo_dir a)); cbn [negb].
  - destruct (bool_decide _); [|done].
    destruct (fetch_on_open E); [done|]. intros [= <-]. cbn [calls remotes].
    by rewrite <- app_assoc.
  - destruct (clone_from E); [done|]. by intros [= <-].
Qed.

Lemma setup_passed_calls int_ E a w w1 :
  setup int_ E a w = (inl tt, w1) ->
  calls w1
  = calls w
    ++ (if path_exists E (repo_dir a)
        then [RepoInit (repo_dir a); Fetch "origin" "+refs/tags/*:refs/tags/*"]
        else [CloneFrom (bb_repo_url a) (repo_dir a)])
    ++ (if path_exists E (repo_dir a) && bool_decide ("github" ∈ (repo_remotes E).*1)
        then [] else [CreateRemote "github" (gh_repo_url a)])
    ++ [ProjectList].
Proof.
  unfold setup. intros H.
  apply bind_inl in H as ([] & w0 & H0 & H).
  assert (Hw0 : calls w0 = calls w).
  { destruct (_ || _); [done|]. by injection H0 as <-. }
  destruct (level_of_name (log_level a)) as [l|];
    [|by cbv [mbind M_bind logger_error logging_emit modify exit throw] in H].
  apply bind_inl in H as ([] & w2 & [= <-] & H). unfold prepare in H.
  apply bind_inl in H as ([] & w3 & H3 & H).
  assert (Hw3 : calls w3 = calls w).
  { destruct (_ && _); [done|]. by injection H3 as <-. }
  apply bind_inl in H as ([] & w4 & H4 & H).
  assert (Hw4 : calls w4 = calls w).
  { destruct (negb _); [|by injection H4 as <-].
    apply bind_inl in H4 as ([] & w3' & [= <-] & H4).
    apply bind_inl in H4 as (ns & w3' & Hread & [= <-]).
    unfold read_pr_ids in Hread.
    pose proof (int_all_pure int_ (filter (fun piece => piece ≠ EmptyString)
                                     (split_nl (stdin_read E)))
                  (log_add INFO "Reading PR IDs from stdin" w3)) as Hp.
    rewrite Hread in Hp. cbn [snd] in Hp. by subst w3'. }
  apply bind_inl in H as ([] & w5 & [= <-] & H).
  apply bind_inl in H as ([] & w6 & Hopen & H).
  apply bind_inl in H as ([] & w7 & Hcheck & H).
  apply open_repo_ok in Hopen as [Hc6 Hr6]. cbn [calls log_add] in Hc6.
  destruct (check_github_remote_cases a w6) as (_ & Hmissing & Hpresent).
  pose proof (check_bitbucket_outcome E w7) as [_ Hc1]. rewrite H in Hc1. cbn [snd] in Hc1.
  rewrite Hc1. rewrite Hcheck in Hmissing, Hpresent. cbn [fst snd] in Hmissing, Hpresent.
  rewrite Hw4 in Hc6.
  destruct (path_exists E (repo_dir a)); cbn [andb].
  - destruct (decide ("github" ∈ (repo_remotes E).*1)) as [Hin|Hout].
    + rewrite (bool_decide_eq_true_2 _ Hin).
      assert (is_Some (github_url w6)) as [url Hurl].
      { unfold github_url. rewrite Hr6.
        destruct (list_to_map (repo_remotes E) !! "github") eqn:Hl; [by eexists|].
        by apply not_elem_of_list_to_map in Hl. }
      destruct (Hpresent url Hurl) as (-> & _). rewrite Hc6. by rewrite <- !app_assoc.
    + rewrite (bool_decide_eq_false_2 _ Hout).
      rewrite <- Hr6 in Hout. destruct (Hmissing Hout) as [_ ->]. rewrite Hc6.
      by rewrite <- !app_assoc.
  - assert (Hout : "github" ∉ (remotes w6).*1).
    { rewrite Hr6. cbn. rewrite not_elem_of_cons. split; [discriminate|apply not_elem_of_nil]. }
    destruct (Hmissing Hout) as [_ ->]. rewrite Hc6. by rewrite <- !app_assoc.
Qed.

(** X19. The calls of a setup that passed, in order: the mirror is cloned when
    its directory is missing, otherwise opened and its tags fetched; the
    [github] remote is created unless the mirror has one; the API is
    checked.  Nothing is looked up, tagged or pushed yet. *)
Theorem setup_trace int_ E a w w1 :
  setup int_ E a w = (inl tt, w1) ->
  calls w1
  = calls w
    ++ (if path_exists E (repo_dir a)
        then [RepoInit (repo_dir a); Fetch "origin" "+refs/tags/*:refs/tags/*"]
        else [CloneFrom (bb_repo_url a) (repo_dir a)])
    ++ (if path_exists E (repo_dir a) && bool_decide ("github" ∈ (repo_remotes E).*1)
        then [] else [CreateRemote "github" (gh_repo_url a)])
    ++ [ProjectList].
Proof. apply setup_passed_calls. Qed.

Lemma setup_trace_witness :
  let a := Scenario.transfer_args (Some [42]) false "INFO" in
  let E := Scenario.bitbucket true EmptyString false in
  (setup Scenario.int_digits E a initial_world).1 = inl tt
  /\ calls (setup Scenario.int_digits E a initial_world).2
     = [RepoInit "git-repo"; Fetch "origin" "+refs/tags/*:refs/tags/*"; ProjectList].
Proof.
  split; [vm_compute; reflexivity|].
  rewrite (setup_trace Scenario.int_digits (Scenario.bitbucket true EmptyString false)
             (Scenario.transfer_args (Some [42]) false "INFO") initial_world
             (setup Scenario.int_digits (Scenario.bitbucket true EmptyString false)
                (Scenario.transfer_args (Some [42]) false "INFO") initial_world).2);
    [|vm_compute; reflexivity].
  vm_compute. reflexivity.
Defined.

(** *** The log level *)

Lemma filtered_log l lvl msg w : filtered l w -> filtered l (log_add lvl msg w).
Proof.
  intros [Hl Hlog]. split; [done|]. cbn [log log_add]. unfold emit. rewrite Hl.
  destruct (level_no l <=? level_no lvl) eqn:Hle; [|done].
  apply Forall_app. split; [done|]. constructor; [|done]. cbn [fst]. lia.
Qed.

Lemma filtered_remotes l rs w :
  filtered l w -> filtered l (World (root_level w) (log w) (calls w) rs).
Proof. done. Qed.

Ltac filtered_step l :=
  transfer_step (filtered_log l) (filtered_remotes l) ltac:(intros; assumption).

(** X24. In a run that reached its end, every record of the log is at or above
    the level given with [--log-level]: nothing below it is emitted, not
    even what the loops decide. *)
Theorem log_level_filters int_ E a w' l :
  main int_ E a initial_world = (inl tt, w') ->
  level_of_name (log_level a) = Some l ->
  forall lvl msg, (lvl, msg) ∈ log w' -> level_no l <= level_no lvl.
Proof.
  unfold main. intros H Hl.
  apply bind_inl in H as ([] & w1 & Hsetup & H).
  assert (H1 : filtered l w1).
  { unfold setup in Hsetup. rewrite Hl in Hsetup.
    apply bind_inl in Hsetup as ([] & w0 & H0 & Hsetup).
    assert (Hw0 : w0 = initial_world) by (destruct (_ || _); [done|]; by injection H0).
    subst w0.
    apply bind_inl in Hsetup as ([] & w2 & [= <-] & Hsetup).
    change w1 with (inl (B:=signal) tt, w1).2. rewrite <- Hsetup.
    assert (Hp : preserves (filtered l) (prepare int_ E a)); [|by apply Hp].
    unfold prepare, open_repo, check_github_remote, check_bitbucket, read_pr_ids,
      logger_debug.
    repeat filtered_step l. }
  assert (H2 : filtered l w').
  { change w' with (inl (B:=signal) tt, w').2. rewrite <- H. revert H1.
    match goal with |- _ -> filtered l (?c w1).2 => assert (Hc : preserves (filtered l) c) end;
      [|by apply Hc].
    unfold the_pr_ids, tag_all, push_all, tag_body, push_body, pr_latestCommit, pr_id,
      logger_debug.
    repeat filtered_step l. }
  destruct H2 as [_ Hall]. rewrite Forall_forall in Hall.
  intros lvl msg Hin. apply (Hall _ Hin).
Qed.

Lemma log_level_filters_witness :
  let a := Scenario.transfer_args (Some [7; 42]) false "ERROR" in
  let E := Scenario.bitbucket true EmptyString false in
  let r := main Scenario.int_digits E a initial_world in
  (r.1 = inl tt /\ level_of_name (log_level a) = Some ERROR)
  /\ forall lvl msg, (lvl, msg) ∈ log r.2 -> level_no ERROR <= level_no lvl.
Proof.
  intros a E r.
  assert (Hr : main Scenario.int_digits E a initial_world = (inl tt, r.2))
    by (vm_compute; reflexivity).
  split; [split; [vm_compute; reflexivity|reflexivity]|].
  apply (log_level_filters Scenario.int_digits E a r.2 ERROR Hr). reflexivity.
Defined.

End TransferCoverage.

(** ** Dry runs of both scripts *)
Module DryRunFacts.
Import Transfer TransferFacts Trace TransferCoverage.

(** *** What the loggers let through *)
Lemma emit_emitted l lvl msg stream :
  emit l lvl msg stream = stream ++ emitted l [(lvl, msg)].
Proof.
  unfold emit, emitted. cbn [List.filter fst].
  destruct (level_no l <=? level_no lvl); [done|by rewrite app_nil_r].
Qed.




Lemma log_add_log lvl msg w :
  log (log_add lvl msg w) = log w ++ emitted (root_level w) [(lvl, msg)].
Proof. apply emit_emitted. Qed.










End DryRunFacts.
